(** * syntheticpg: normalisation, DV2 hashing and the bronze-hash merge

    A shallow embedding of [src/hashing.py] and of the hashed-landing path of
    [src/mock_source_pg.py], with the properties of the specification that
    concern them.

    Python strings are sequences of Unicode code points; they are modelled as
    [list N].  [str.strip], [str.upper], the pattern [\s+], [str.join],
    [str.encode("utf-8")] and [hashlib.sha256] are library code of CPython:
    - white space ([str.strip] and [\s] use the same predicate) is written
      out, it is a set of 29 code points;
    - UTF-8 and SHA-256 are written out;
    - the upper-case table of Unicode (some 1500 entries, and it grows with
      the Unicode version) is a parameter [upper_cp] of the development; the
      facts used about it are Section hypotheses, each of them a property of
      the Unicode table.  [upper_latin1] is the table restricted to Basic
      Latin and Latin-1; it instantiates the parameter on concrete inputs.

    The second half covers the rest of [mock_source_pg.py] and [app.py]:
    the raw landing, [main], and the generator [_create_df], whose
    [random.Random] is a state threaded through the draws; the draws are
    parameters, and the one fact used of them is that [choice] returns an
    element of its argument. *)

From Stdlib Require Import List NArith ZArith Bool Lia Arith.
From Stdlib Require Import DecimalPos DecimalZ.
Import ListNotations.

Local Open Scope N_scope.

(** ** Values and strings *)

Definition pystr := list N.

(** A scalar of a raw record: a string, an integer or null (spec, section 3). *)
Inductive value : Type :=
| VNone
| VStr (s : pystr)
| VInt (z : Z).

Module Py.

(** [Py_UNICODE_ISSPACE]: the predicate behind [str.isspace], [str.strip]
    and the regular expression class [\s] on [str] patterns. *)
Definition is_space (c : N) : bool :=
  ((9 <=? c) && (c <=? 13)) || ((28 <=? c) && (c <=? 32))
  || (c =? 0x85) || (c =? 0xA0) || (c =? 0x1680)
  || ((0x2000 <=? c) && (c <=? 0x200A))
  || (c =? 0x2028) || (c =? 0x2029) || (c =? 0x202F) || (c =? 0x205F)
  || (c =? 0x3000).

Fixpoint lstrip (s : pystr) : pystr :=
  match s with
  | [] => []
  | c :: r => if is_space c then lstrip r else s
  end.

Definition rstrip (s : pystr) : pystr := rev (lstrip (rev s)).

(** [s.strip()] *)
Definition strip (s : pystr) : pystr := rstrip (lstrip s).

(** [sep.join(l)] *)
Fixpoint join (sep : pystr) (l : list pystr) : pystr :=
  match l with
  | [] => []
  | x :: r =>
      match r with
      | [] => x
      | _ :: _ => x ++ sep ++ join sep r
      end
  end.

Definition digit_cp (d : N) : N := 48 + d.

Fixpoint uint_str (u : Decimal.uint) : pystr :=
  match u with
  | Decimal.Nil => []
  | Decimal.D0 r => digit_cp 0 :: uint_str r
  | Decimal.D1 r => digit_cp 1 :: uint_str r
  | Decimal.D2 r => digit_cp 2 :: uint_str r
  | Decimal.D3 r => digit_cp 3 :: uint_str r
  | Decimal.D4 r => digit_cp 4 :: uint_str r
  | Decimal.D5 r => digit_cp 5 :: uint_str r
  | Decimal.D6 r => digit_cp 6 :: uint_str r
  | Decimal.D7 r => digit_cp 7 :: uint_str r
  | Decimal.D8 r => digit_cp 8 :: uint_str r
  | Decimal.D9 r => digit_cp 9 :: uint_str r
  end.

(** [str(z)] for an [int]: decimal digits, a leading minus sign when
    negative.  CPython converts up to [default_max_str_digits] digits and
    raises [ValueError] beyond; [str_defined] below is the domain on which
    [str] returns. *)
Definition int_str (z : Z) : pystr :=
  match Z.to_int z with
  | Decimal.Pos u => uint_str u
  | Decimal.Neg u => 45 :: uint_str u
  end.

(** [str(v)] *)
Definition str (v : value) : pystr :=
  match v with
  | VNone => [78; 111; 110; 101]
  | VStr s => s
  | VInt z => int_str z
  end.

(** [re.compile(r"\s+").sub(" ", s)]: every maximal run of white space is
    replaced by one space.  [in_run] tells that the previous character
    belonged to the run being replaced. *)
Fixpoint ws_sub (in_run : bool) (s : pystr) : pystr :=
  match s with
  | [] => []
  | c :: r =>
      if is_space c
      then (if in_run then ws_sub true r else 32 :: ws_sub true r)
      else c :: ws_sub false r
  end.

End Py.

(** ** Library code: UTF-8 and SHA-256 *)

Module Utf8.

(** The bytes of one code point; [None] where the codec raises
    [UnicodeEncodeError] (the surrogates U+D800..U+DFFF) and beyond U+10FFFF,
    where there is no code point. *)
Definition encode_cp (c : N) : option (list N) :=
  if c <? 0x80 then Some [c]
  else if c <? 0x800 then Some [0xC0 + c / 64; 0x80 + c mod 64]
  else if c <? 0x10000 then
    if (0xD800 <=? c) && (c <=? 0xDFFF) then None
    else Some [0xE0 + c / 4096; 0x80 + (c / 64) mod 64; 0x80 + c mod 64]
  else if c <? 0x110000 then
    Some [0xF0 + c / 262144; 0x80 + (c / 4096) mod 64;
          0x80 + (c / 64) mod 64; 0x80 + c mod 64]
  else None.

(** [s.encode("utf-8")] *)
Fixpoint encode (s : pystr) : option (list N) :=
  match s with
  | [] => Some []
  | c :: r =>
      match encode_cp c, encode r with
      | Some b, Some br => Some (b ++ br)
      | _, _ => None
      end
  end.

End Utf8.

Module Sha256.

Definition mask32 : N := 0xFFFFFFFF.
Definition add32 (a b : N) : N := N.land (a + b) mask32.
Definition rotr (n x : N) : N :=
  N.lor (N.shiftr x n) (N.land (N.shiftl x (32 - n)) mask32).
Definition not32 (x : N) : N := N.lxor x mask32.

Definition Ch (x y z : N) : N := N.lxor (N.land x y) (N.land (not32 x) z).
Definition Maj (x y z : N) : N :=
  N.lxor (N.lxor (N.land x y) (N.land x z)) (N.land y z).
Definition Sigma0 (x : N) : N := N.lxor (N.lxor (rotr 2 x) (rotr 13 x)) (rotr 22 x).
Definition Sigma1 (x : N) : N := N.lxor (N.lxor (rotr 6 x) (rotr 11 x)) (rotr 25 x).
Definition sigma0 (x : N) : N := N.lxor (N.lxor (rotr 7 x) (rotr 18 x)) (N.shiftr x 3).
Definition sigma1 (x : N) : N := N.lxor (N.lxor (rotr 17 x) (rotr 19 x)) (N.shiftr x 10).

(** The first sixty-four primes. *)
Definition primes64 : list N :=
  [2; 3; 5; 7; 11; 13; 17; 19; 23; 29; 31; 37; 41; 43; 47; 53; 59; 61; 67; 71;
   73; 79; 83; 89; 97; 101; 103; 107; 109; 113; 127; 131; 137; 139; 149; 151;
   157; 163; 167; 173; 179; 181; 191; 193; 197; 199; 211; 223; 227; 229; 233;
   239; 241; 251; 257; 263; 269; 271; 277; 281; 283; 293; 307; 311].

(** Integer cube root of [x], bit by bit from bit [n - 1] down. *)
Fixpoint cbrt_bits (n : nat) (x r : N) : N :=
  match n with
  | O => r
  | S m =>
      let r' := r + 2 ^ N.of_nat m in
      cbrt_bits m x (if r' * r' * r' <=? x then r' else r)
  end.

(** The first 32 bits of the fractional part of the cube root, and of the
    square root, of [p]. *)
Definition frac_cbrt32 (p : N) : N := cbrt_bits 40 (p * 2 ^ 96) 0 mod 2 ^ 32.
Definition frac_sqrt32 (p : N) : N := N.sqrt (p * 2 ^ 64) mod 2 ^ 32.

(** The round constants (FIPS 180-4, 4.2.2) and the initial hash value
    (5.3.3), from their definition. *)
Definition K : list N := Eval vm_compute in map frac_cbrt32 primes64.
Definition H0 : list N := Eval vm_compute in map frac_sqrt32 (firstn 8 primes64).

(** Big-endian bytes of [x], [n] of them. *)
Fixpoint be_bytes (n : nat) (x : N) : list N :=
  match n with
  | O => []
  | S m => N.land (N.shiftr x (8 * N.of_nat m)) 0xFF :: be_bytes m x
  end.

Definition pad (msg : list N) : list N :=
  let len := N.of_nat (length msg) in
  msg ++ [0x80] ++ repeat 0 (N.to_nat ((119 - len mod 64) mod 64))
      ++ be_bytes 8 (8 * len).

(** Big-endian 32-bit words of a byte string.  [hashlib.sha256] takes
    [bytes]: the elements are below 256, as those of the strings that
    [Utf8.encode] returns are; on other lists the result is no digest of
    anything. *)
Fixpoint words (b : list N) : list N :=
  match b with
  | b0 :: b1 :: b2 :: b3 :: r =>
      N.lor (N.shiftl b0 24) (N.lor (N.shiftl b1 16) (N.lor (N.shiftl b2 8) b3))
      :: words r
  | _ => []
  end.

(** The message schedule, most recent word first: [w] holds W[t-1], W[t-2],
    ... and [n] more words are appended. *)
Fixpoint schedule (n : nat) (w : list N) : list N :=
  match n with
  | O => w
  | S m =>
      let x := add32 (add32 (sigma1 (nth 1 w 0)) (nth 6 w 0))
                     (add32 (sigma0 (nth 14 w 0)) (nth 15 w 0)) in
      schedule m (x :: w)
  end.

Record regs : Type := Regs { ra : N; rb : N; rc : N; rd : N; re : N; rf : N; rg : N; rh : N }.

Definition round (s : regs) (kw : N * N) : regs :=
  let t1 := add32 (add32 (add32 (rh s) (Sigma1 (re s))) (Ch (re s) (rf s) (rg s)))
                  (add32 (fst kw) (snd kw)) in
  let t2 := add32 (Sigma0 (ra s)) (Maj (ra s) (rb s) (rc s)) in
  Regs (add32 t1 t2) (ra s) (rb s) (rc s) (add32 (rd s) t1) (re s) (rf s) (rg s).

Definition regs_of (h : list N) : regs :=
  Regs (nth 0 h 0) (nth 1 h 0) (nth 2 h 0) (nth 3 h 0)
       (nth 4 h 0) (nth 5 h 0) (nth 6 h 0) (nth 7 h 0).

Definition regs_list (s : regs) : list N :=
  [ra s; rb s; rc s; rd s; re s; rf s; rg s; rh s].

(** One 64-byte block. *)
Definition compress (h : list N) (block : list N) : list N :=
  let w := rev (schedule 48 (rev (words block))) in
  let s := fold_left round (combine K w) (regs_of h) in
  map (fun p => add32 (fst p) (snd p)) (combine h (regs_list s)).

Fixpoint blocks (n : nat) (h : list N) (b : list N) : list N :=
  match n with
  | O => h
  | S m =>
      match b with
      | [] => h
      | _ :: _ => blocks m (compress h (firstn 64 b)) (skipn 64 b)
      end
  end.

Definition digest (msg : list N) : list N :=
  let p := pad msg in
  flat_map (be_bytes 4) (blocks (length p) H0 p).

Definition hex_cp (d : N) : N := if d <? 10 then 48 + d else 87 + d.

(** [hashlib.sha256(msg).hexdigest()]: lower-case hexadecimal. *)
Definition hexdigest (msg : list N) : pystr :=
  flat_map (fun b => [hex_cp (b / 16); hex_cp (b mod 16)]) (digest msg).

End Sha256.

(** ** hashing.py *)

(** [_NULL = "§NULL§"] *)
Definition _NULL : pystr := [0xA7; 78; 85; 76; 76; 0xA7].

(** [_WS_RE.sub(" ", s)] *)
Definition _WS_RE_sub (s : pystr) : pystr := Py.ws_sub false s.

(** The separator of [dv2_hash]: ["|"]. *)
Definition SEP : N := 124.

Section Hashing.

(** [str.upper] maps every code point through the upper-case table
    ([_PyUnicode_ToUpperFull]); one code point can become several. *)
Variable upper_cp : N -> pystr.

Definition upper (s : pystr) : pystr := flat_map upper_cp s.

Definition _norm (v : value) : pystr :=
  match v with
  | VNone => _NULL
  | VStr [] => _NULL
  | _ =>
      let s := upper (Py.strip (Py.str v)) in
      let s := _WS_RE_sub s in
      match s with
      | [] => _NULL
      | _ :: _ => s
      end
  end.

(** The string that [dv2_hash] hashes: ["|".join(_norm(c) for c in cols)]. *)
Definition joined (cols : list value) : pystr :=
  Py.join [SEP] (map _norm cols).

(** [None] stands for the [UnicodeEncodeError] that [encode] raises. *)
Definition dv2_hash (cols : list value) : option pystr :=
  option_map Sha256.hexdigest (Utf8.encode (joined cols)).

End Hashing.

(** The upper-case table on Basic Latin and Latin-1 (U+0000..U+00FF), where
    it has not changed since Unicode 1.1: a-z, the letters U+00E0..U+00FE
    but the division sign, and the three special cases of the micro sign,
    sharp s and y with diaeresis.  Other code points are left as they are. *)
Definition upper_latin1 (c : N) : pystr :=
  if (97 <=? c) && (c <=? 122) then [c - 32]
  else if c =? 0xB5 then [0x39C]
  else if c =? 0xDF then [83; 83]
  else if c =? 0xFF then [0x178]
  else if (0xE0 <=? c) && (c <=? 0xFE) && negb (c =? 0xF7) then [c - 32]
  else [c].

(** ** mock_source_pg.py *)

Inductive error : Type :=
| UndefinedTable        (* the bronze table was never written *)
| UnicodeEncodeError    (* raised by [encode] inside [dv2_hash] *)
| UniqueViolation.      (* ADD CONSTRAINT ... PRIMARY KEY on duplicate rows *)

(** A call either returns or raises; a raise inside [engine.begin()] rolls
    the transaction back, so an error carries no new state. *)
Inductive result (A : Type) : Type :=
| Ok (a : A)
| Err (e : error).
Arguments Ok {A} a.
Arguments Err {A} e.

Definition bind {A B : Type} (m : result A) (k : A -> result B) : result B :=
  match m with
  | Ok a => k a
  | Err e => Err e
  end.

Notation "x <- m ;; k" := (bind m (fun x => k))
  (at level 61, m at next level, right associativity).

Fixpoint mapM {A B : Type} (f : A -> result B) (l : list A) : result (list B) :=
  match l with
  | [] => Ok []
  | a :: r => b <- f a ;; br <- mapM f r ;; Ok (b :: br)
  end.

Section WriteDf.

Context {row key : Type}.
Variable key_eq_dec : forall a b : key, {a = b} + {a <> b}.

(** A persistent table: its rows in insertion order, and whether the
    constraint [pk_<schema>_<table>] is recorded in [pg_constraint]. *)
Record table : Type := Table { t_rows : list row; t_pk : bool }.

(** A target table (absent until the first write) with the TEMP table
    [_<table>_stage] of the session. *)
Record store : Type := Store { target : option table; stage : option (list row) }.

Definition has_key (pk : row -> key) (k : key) (rows : list row) : bool :=
  existsb (fun r => if key_eq_dec (pk r) k then true else false) rows.

Fixpoint unique_keys (pk : row -> key) (rows : list row) : bool :=
  match rows with
  | [] => true
  | r :: rs => negb (has_key pk (pk r) rs) && unique_keys pk rs
  end.

(** [INSERT INTO target SELECT ... FROM temp ON CONFLICT (pk) DO NOTHING]:
    a staged row is inserted unless a row of the target, older or inserted
    by this very statement, has its key. *)
Fixpoint insert_on_conflict_do_nothing
    (pk : row -> key) (tgt : list row) (temp : list row) : list row :=
  match temp with
  | [] => tgt
  | r :: rs =>
      insert_on_conflict_do_nothing pk
        (if has_key pk (pk r) tgt then tgt else tgt ++ [r]) rs
  end.

(** Step 4 of [_write_df], first statement: the [DO $$ ... $$] block adds
    the primary key unless a constraint of that name exists; PostgreSQL
    rejects it when two rows of the table have the same key. *)
Definition add_pk_once (pk : row -> key) (t : table) : result table :=
  if t_pk t then Ok t
  else if unique_keys pk (t_rows t) then Ok (Table (t_rows t) true)
  else Err UniqueViolation.

(** [_write_df(df, table, pk)], on the store of [table].  The plain insert of
    the [else] branch is the raw landing, whose table has no constraint.
    The rows are rows that PostgreSQL stores: the frames of this program
    come from [_create_df] or from a table of the database, and hold no
    string with the character U+0000, which [to_sql] would reject. *)
Definition _write_df
    (df : list row) (pk : option (row -> key)) (s : store) : result store :=
  (* 1) head(0).to_sql(if_exists="append"): the table is created when absent *)
  let t := match target s with
           | Some t => t
           | None => Table [] false
           end in
  (* 2) DROP TABLE IF EXISTS temp; CREATE TEMP TABLE temp ... WHERE FALSE *)
  let temp : list row := [] in
  (* 3) pdf.to_sql(temp, if_exists="append") *)
  let temp := temp ++ df in
  (* 4) *)
  match pk with
  | Some pk =>
      t <- add_pk_once pk t ;;
      Ok (Store (Some (Table (insert_on_conflict_do_nothing pk (t_rows t) temp)
                             (t_pk t)))
                (Some temp))
  | None =>
      Ok (Store (Some (Table (t_rows t ++ temp) (t_pk t))) (Some temp))
  end.

End WriteDf.

Arguments table : clear implicits.
Arguments store : clear implicits.

(** A row of [bronze.<table_name>]: [self.columns]. *)
Record raw_row : Type := RawRow {
  col1_bk : value; col2_bk : value; col3_fk : value; col4_fk : value;
  col5 : value; col6 : value; col7 : value; col8 : value
}.

(** [[r[c] for c in self.columns]] *)
Definition columns (r : raw_row) : list value :=
  [col1_bk r; col2_bk r; col3_fk r; col4_fk r; col5 r; col6 r; col7 r; col8 r].

(** A row of [bronze.<table_name>_hash]. *)
Record hashed_row : Type := HashedRow {
  raw : raw_row;
  bk_hash : pystr;
  row_hash : pystr;
  load_dts : Z;
  record_source : pystr
}.

(** [pk=("bk_hash","row_hash")] *)
Definition pk_hash (r : hashed_row) : pystr * pystr := (bk_hash r, row_hash r).

Definition pk_eq_dec (a b : pystr * pystr) : {a = b} + {a <> b}.
Proof. decide equality; apply (list_eq_dec N.eq_dec). Defined.

Definition unit_eq_dec (a b : unit) : {a = b} + {a <> b}.
Proof. decide equality. Defined.

(** The two tables of the schema. *)
Record pg : Type := Pg {
  tbl_bronze : store raw_row;
  tbl_bhash : store hashed_row
}.

Section MockSourcePg.

Variable upper_cp : N -> pystr.

(** [cfg.record_source] *)
Variable cfg_record_source : pystr.

Definition lift_hash (h : option pystr) : result pystr :=
  match h with
  | Some x => Ok x
  | None => Err UnicodeEncodeError
  end.

(** [lambda r: dv2_hash([r["col1_bk"], r["col2_bk"]])] *)
Definition bk_hash_of (r : raw_row) : option pystr :=
  dv2_hash upper_cp [col1_bk r; col2_bk r].

(** [lambda r: dv2_hash([r[c] for c in self.columns])] *)
Definition row_hash_of (r : raw_row) : option pystr :=
  dv2_hash upper_cp (columns r).

(** The four columns that [with_columns] adds to one bronze row; [now] is
    [datetime.now(timezone.utc)], read once for the frame. *)
Definition with_columns (now : Z) (r : raw_row) : result hashed_row :=
  bk <- lift_hash (bk_hash_of r) ;;
  rh <- lift_hash (row_hash_of r) ;;
  Ok (HashedRow r bk rh now cfg_record_source).

(** [populate_db]; [df] is the frame that [_create_df(cfg.row_count)]
    generates (the generator is outside the specification). *)
Definition populate_db (df : list raw_row) (db : pg) : result (pg * nat) :=
  s <- _write_df unit_eq_dec df None (tbl_bronze db) ;;
  Ok (Pg s (tbl_bhash db), length df).

(** [create_bronze_hash]: the bronze table is read, hashed and merged.  The
    rows read are the rows stored when the columns are text, as the columns
    of the table that [populate_db] creates are ([text_row] below); pandas
    reads a column of integers that holds a NULL as floating-point
    numbers. *)
Definition create_bronze_hash (now : Z) (db : pg) : result (pg * nat) :=
  match target (tbl_bronze db) with
  | None => Err UndefinedTable
  | Some t =>
      match t_rows t with
      | [] => Ok (db, 0%nat)                       (* if pdf.empty: return 0 *)
      | _ :: _ =>
          df <- mapM (with_columns now) (t_rows t) ;;
          s <- _write_df pk_eq_dec df (Some pk_hash) (tbl_bhash db) ;;
          Ok (Pg (tbl_bronze db) s, length df)
      end
  end.

End MockSourcePg.

(** The schema after [create_db]: no table yet. *)
Definition empty_pg : pg := Pg (Store None None) (Store None None).

(** Number of rows of a target table; an absent table has none. *)
Definition row_count {row : Type} (s : store row) : nat :=
  match target s with
  | Some t => length (t_rows t)
  | None => 0%nat
  end.

(** ** The normaliser as the specification words it (section 4.1)

    "converted to its string representation, surrounding whitespace trimmed,
    internal runs of whitespace collapsed to a single space, and case folded
    to uppercase": trim, collapse, then upper-case. *)
Definition spec_normalize (upper_cp : N -> pystr) (v : value) : pystr :=
  upper upper_cp (_WS_RE_sub (Py.strip (Py.str v))).

(** [blank s]: [s] has no character that is not white space. *)
Definition blank (s : pystr) : bool := forallb Py.is_space s.

(** [hd_ok s]: [s] does not start with white space. *)
Definition hd_ok (s : pystr) : bool :=
  match s with
  | [] => true
  | c :: _ => negb (Py.is_space c)
  end.

(** [trimmed s]: neither end of [s] is white space. *)
Definition trimmed (s : pystr) : Prop :=
  hd_ok s = true /\ hd_ok (rev s) = true.

(** A record for the examples: business key (A1, S1), a null and a
    non-null reference, [col5] left open, and two more attributes. *)
Definition ex_row (c5 : value) : raw_row :=
  RawRow (VStr [65; 49]) (VStr [83; 49]) VNone (VStr [72; 45; 49])
         c5 (VStr [55]) VNone (VStr [120]).

(** Three bronze rows with one business key: [col5] is ["abc"], ["ABC"]
    and ["abd"]; the first two have the same tokens. *)
Definition ex_bronze : list raw_row :=
  [ex_row (VStr [97; 98; 99]); ex_row (VStr [65; 66; 67]);
   ex_row (VStr [97; 98; 100])].

(** The schema after [populate_db] has landed [ex_bronze]. *)
Definition ex_db : pg :=
  Pg (Store (Some (Table ex_bronze false)) (Some ex_bronze)) (Store None None).

(** The default of [Settings.record_source]: ["GEN_SYNTH"]. *)
Definition ex_source : pystr := [71; 69; 78; 95; 83; 89; 78; 84; 72].

(** [single_spaced b s]: the only white space of [s] is the space, and no
    two spaces are adjacent; [b] tells that a space comes just before [s]. *)
Fixpoint single_spaced (b : bool) (s : pystr) : bool :=
  match s with
  | [] => true
  | c :: r =>
      if Py.is_space c
      then (c =? 32) && negb b && single_spaced true r
      else single_spaced false r
  end.

(** The code points that [encode("utf-8")] rejects: the surrogates; beyond
    U+10FFFF there is no code point. *)
Definition unencodable (c : N) : Prop :=
  0xD800 <= c <= 0xDFFF \/ 0x110000 <= c.

(** A lower-case hexadecimal digit: [0-9a-f]. *)
Definition is_lower_hex (c : N) : bool :=
  ((48 <=? c) && (c <=? 57)) || ((97 <=? c) && (c <=? 102)).

(** A store is consistent when a table that carries the primary key has no
    two rows with one key, as PostgreSQL enforces. *)
Definition store_ok {row key : Type}
    (key_eq_dec : forall a b : key, {a = b} + {a <> b})
    (pk : row -> key) (s : store row) : Prop :=
  match target s with
  | Some t => t_pk t = true -> unique_keys key_eq_dec pk (t_rows t) = true
  | None => True
  end.

(** The rows of a target table; an absent table has none. *)
Definition rows_of {row : Type} (s : store row) : list row :=
  match target s with
  | Some t => t_rows t
  | None => []
  end.

(** ** app.py *)

(** [create_db]: [CREATE SCHEMA IF NOT EXISTS].  A server on which the
    schema is absent is [None]; a schema that exists is left as it is. *)
Definition create_db (s : option pg) : pg :=
  match s with
  | Some db => db
  | None => empty_pg
  end.

(** [f"bronze.{table}: +{n} rows"] *)
Definition report (table : pystr) (n : nat) : pystr :=
  [98; 114; 111; 110; 122; 101; 46] ++ table ++ [58; 32; 43]
  ++ Py.int_str (Z.of_nat n) ++ [32; 114; 111; 119; 115].

Section App.

Variable upper_cp : N -> pystr.

(** [cfg.record_source] and [cfg.table_name] *)
Variable cfg_record_source : pystr.
Variable cfg_table_name : pystr.

(** [main]; [df] is the frame that [_create_df(cfg.row_count)] generates,
    the same at every run (the generator is seeded with a constant), and
    [now] the clock of [create_bronze_hash].  The result is the schema and
    the two lines printed. *)
Definition main (df : list raw_row) (now : Z) (s : option pg)
  : result (pg * list pystr) :=
  let db := create_db s in
  r1 <- populate_db df db ;;
  r2 <- create_bronze_hash upper_cp cfg_record_source now (fst r1) ;;
  Ok (fst r2,
      [report cfg_table_name (snd r1);
       report (cfg_table_name ++ [95; 104; 97; 115; 104]) (snd r2)]).

(** A hashed row is well formed when its two hashes are those of its own
    columns. *)
Definition hashed_ok (h : hashed_row) : Prop :=
  bk_hash_of upper_cp (raw h) = Some (bk_hash h)
  /\ row_hash_of upper_cp (raw h) = Some (row_hash h).

(** The schemas that the two public operations produce from the empty
    schema. *)
Inductive reachable : pg -> Prop :=
| reach_empty : reachable empty_pg
| reach_populate (df : list raw_row) (db db' : pg) (n : nat) :
    reachable db -> populate_db df db = Ok (db', n) -> reachable db'
| reach_hash (now : Z) (db db' : pg) (n : nat) :
    reachable db ->
    create_bronze_hash upper_cp cfg_record_source now db = Ok (db', n) ->
    reachable db'.

End App.

(** ** mock_source_pg.py: the generator *)

(** [string.ascii_letters + string.digits] *)
Definition alphabet : pystr :=
  map N.of_nat (seq 97 26 ++ seq 65 26 ++ seq 48 10).

(** [f"{i:06d}"] for [i >= 0]: the digits, padded with zeros on the left to
    the width [w]. *)
Definition zfill (w : nat) (s : pystr) : pystr :=
  repeat 48 (w - length s) ++ s.

(** [f"CUST-{i:06d}"] *)
Definition cust_id (i : nat) : pystr :=
  [67; 85; 83; 84; 45] ++ zfill 6 (Py.int_str (Z.of_nat i)).

Section CreateDf.

(** [random.Random]: the generator is a state that every draw advances.
    [Random seed] is the seeded state, [randint a b] is
    [rng.randint(a, b)], [choice s] is [rng.choice(s)], and [random_gt t]
    is the test [rng.random() > t / 10]. *)
Variable rng : Type.
Variable Random : Z -> rng.
Variable randint : Z -> Z -> rng -> Z * rng.
Variable choice : pystr -> rng -> N * rng.
Variable random_gt : N -> rng -> bool * rng.

Definition gen (A : Type) : Type := rng -> A * rng.

Definition gret {A : Type} (a : A) : gen A := fun g => (a, g).

Definition gbind {A B : Type} (m : gen A) (k : A -> gen B) : gen B :=
  fun g => let (a, g') := m g in k a g'.

(** [[m for _ in range(n)]] *)
Fixpoint replicateM {A : Type} (n : nat) (m : gen A) : gen (list A) :=
  match n with
  | O => gret []
  | S k => gbind m (fun a => gbind (replicateM k m) (fun r => gret (a :: r)))
  end.

(** [rnd(n)] *)
Definition rnd (n : nat) : gen pystr := replicateM n (choice alphabet).

(** [f"HUB-{rng.randint(a, b)}" if rng.random() > t/10 else None] *)
Definition fk (t : N) (a b : Z) : gen value :=
  gbind (random_gt t) (fun keep =>
    if keep
    then gbind (randint a b) (fun z =>
           gret (VStr ([72; 85; 66; 45] ++ Py.int_str z)))
    else gret VNone).

(** [rnd(n) if rng.random() > t/10 else None] *)
Definition rnd_or_none (t : N) (n : nat) : gen value :=
  gbind (random_gt t) (fun keep =>
    if keep then gbind (rnd n) (fun s => gret (VStr s)) else gret VNone).

(** The rows of the frame, from its columns. *)
Fixpoint frame_rows (c1 c2 c3 c4 c5 c6 c7 c8 : list value) : list raw_row :=
  match c1, c2, c3, c4, c5, c6, c7, c8 with
  | v1 :: r1, v2 :: r2, v3 :: r3, v4 :: r4,
    v5 :: r5, v6 :: r6, v7 :: r7, v8 :: r8 =>
      RawRow v1 v2 v3 v4 v5 v6 v7 v8 :: frame_rows r1 r2 r3 r4 r5 r6 r7 r8
  | _, _, _, _, _, _, _, _ => []
  end.

(** [self.seed] *)
Definition seed : Z := 42.

(** [_create_df(n_rows)]: the columns are drawn one after the other, in the
    order of the dictionary. *)
Definition _create_df (n_rows : nat) : list raw_row :=
  let g := Random seed in
  let c1 := map (fun i => VStr (cust_id i)) (seq 0 n_rows) in
  let (c2, g) :=
    replicateM n_rows
      (gbind (randint 1 5) (fun z =>
         gret (VStr ([83; 82; 67; 45] ++ Py.int_str z)))) g in
  let (c3, g) := replicateM n_rows (fk 1 100 999) g in
  let (c4, g) := replicateM n_rows (fk 2 1000 1999) g in
  let (c5, g) :=
    replicateM n_rows (gbind (rnd 10) (fun s => gret (VStr s))) g in
  let (c6, g) :=
    replicateM n_rows
      (gbind (randint 0 10000) (fun z => gret (VStr (Py.int_str z)))) g in
  let (c7, g) := replicateM n_rows (rnd_or_none 3 5) g in
  let (c8, g) := replicateM n_rows (rnd_or_none 5 12) g in
  frame_rows c1 c2 c3 c4 c5 c6 c7 c8.

End CreateDf.

(** A counter as generator, for the examples: the draws are the least
    value, the letters of the alphabet in turn, and a test that holds every
    other time. *)
Definition ex_randint (a b : Z) (g : nat) : Z * nat := (a, S g).
Definition ex_choice (s : pystr) (g : nat) : N * nat :=
  (nth (g mod length s) s 0, S g).
Definition ex_random_gt (t : N) (g : nat) : bool * nat := (Nat.even g, S g).
Definition ex_Random (seed : Z) : nat := Z.to_nat seed.

(** An alphanumeric character or the hyphen. *)
Definition is_alnum_hyphen (c : N) : bool :=
  (c =? 45) || ((48 <=? c) && (c <=? 57)) || ((65 <=? c) && (c <=? 90))
  || ((97 <=? c) && (c <=? 122)).

(** A value of a generated frame: null, or a non-empty string of
    alphanumeric characters and hyphens. *)
Definition plain_value (v : value) : Prop :=
  match v with
  | VNone => True
  | VStr s => s <> [] /\ forallb is_alnum_hyphen s = true
  | VInt _ => False
  end.

(** [sys.int_info.default_max_str_digits]: the number of decimal digits
    up to which CPython converts an [int] to [str]. *)
Definition default_max_str_digits : Z := 4300.

(** [str_defined v]: [str(v)] returns (and is [Py.str v]); on an integer of
    more digits than the limit it raises [ValueError]. *)
Definition str_defined (v : value) : Prop :=
  match v with
  | VInt z => (Z.abs z < 10 ^ default_max_str_digits)%Z
  | _ => True
  end.

(** A value of a text column: a string or null. *)
Definition text_value (v : value) : Prop :=
  match v with
  | VInt _ => False
  | _ => True
  end.

(** A row of a table whose columns are text. *)
Definition text_row (r : raw_row) : Prop := Forall text_value (columns r).

(** * Properties *)

(** ** White space, [strip] and the substitution *)

Lemma lstrip_blank (s : pystr) : blank s = true -> Py.lstrip s = [].
Proof.
  induction s as [|c r IH]; simpl; [reflexivity|].
  intros H. apply andb_true_iff in H as [Hc Hr]. now rewrite Hc, IH.
Qed.

Lemma lstrip_nil_blank (s : pystr) : Py.lstrip s = [] -> blank s = true.
Proof.
  induction s as [|c r IH]; simpl; [reflexivity|].
  destruct (Py.is_space c); simpl; [exact IH | discriminate].
Qed.

Lemma strip_blank (s : pystr) : blank s = true -> Py.strip s = [].
Proof.
  intros H. unfold Py.strip, Py.rstrip. now rewrite (lstrip_blank s H).
Qed.

Lemma blank_app (a b : pystr) : blank (a ++ b) = blank a && blank b.
Proof. apply forallb_app. Qed.

Lemma blank_rev (s : pystr) : blank (rev s) = blank s.
Proof.
  induction s as [|c r IH]; simpl; [reflexivity|].
  rewrite blank_app, IH. simpl. rewrite andb_true_r. apply andb_comm.
Qed.

(** What [lstrip] drops is white space. *)
Lemma lstrip_split (s : pystr) :
  exists p, s = p ++ Py.lstrip s /\ blank p = true.
Proof.
  induction s as [|c r [p [E B]]]; simpl.
  - now exists [].
  - destruct (Py.is_space c) eqn:Hc.
    + exists (c :: p). simpl. now rewrite Hc, B, <- E.
    + now exists [].
Qed.

Lemma strip_nil_blank (s : pystr) : Py.strip s = [] -> blank s = true.
Proof.
  unfold Py.strip, Py.rstrip. intros H.
  assert (H1 : Py.lstrip (rev (Py.lstrip s)) = []).
  { rewrite <- (rev_involutive (Py.lstrip _)). now rewrite H. }
  apply lstrip_nil_blank in H1. rewrite blank_rev in H1.
  destruct (lstrip_split s) as [p [E B]]. rewrite E, blank_app, B, H1.
  reflexivity.
Qed.

Lemma lstrip_hd_ok (s : pystr) : hd_ok (Py.lstrip s) = true.
Proof.
  induction s as [|c r IH]; simpl; [reflexivity|].
  destruct (Py.is_space c) eqn:Hc; [exact IH|]. simpl. now rewrite Hc.
Qed.

Lemma lstrip_id (s : pystr) : hd_ok s = true -> Py.lstrip s = s.
Proof.
  destruct s as [|c r]; simpl; [reflexivity|].
  now destruct (Py.is_space c).
Qed.

Lemma hd_ok_app (a b : pystr) :
  a <> [] -> hd_ok (a ++ b) = hd_ok a.
Proof. destruct a; [congruence | reflexivity]. Qed.

Lemma hd_ok_rev_lstrip (s : pystr) :
  hd_ok (rev s) = true -> hd_ok (rev (Py.lstrip s)) = true.
Proof.
  intros H. destruct (lstrip_split s) as [p [E B]].
  destruct (Py.lstrip s) as [|c r] eqn:El; [reflexivity|].
  rewrite E, rev_app_distr, hd_ok_app in H; [exact H|].
  simpl. now destruct (rev r).
Qed.

Lemma strip_trimmed (s : pystr) : trimmed (Py.strip s).
Proof.
  unfold trimmed, Py.strip, Py.rstrip. split.
  - apply hd_ok_rev_lstrip. rewrite rev_involutive. apply lstrip_hd_ok.
  - rewrite rev_involutive. apply lstrip_hd_ok.
Qed.

Lemma trimmed_strip (s : pystr) : trimmed s -> Py.strip s = s.
Proof.
  intros [H1 H2]. unfold Py.strip, Py.rstrip.
  rewrite (lstrip_id s H1), (lstrip_id _ H2). apply rev_involutive.
Qed.

Lemma In_lstrip (x : N) (s : pystr) : In x (Py.lstrip s) -> In x s.
Proof.
  destruct (lstrip_split s) as [p [E _]]. intros H. rewrite E.
  apply in_or_app. now right.
Qed.

Lemma In_strip (x : N) (s : pystr) : In x (Py.strip s) -> In x s.
Proof.
  unfold Py.strip, Py.rstrip. intros H.
  apply In_lstrip. apply in_rev. apply In_lstrip. now apply in_rev in H.
Qed.

Lemma ws_sub_snoc (b : bool) (s : pystr) (c : N) :
  Py.is_space c = false -> Py.ws_sub b (s ++ [c]) = Py.ws_sub b s ++ [c].
Proof.
  intros Hc. revert b. induction s as [|d r IH]; intros b; simpl.
  - now rewrite Hc.
  - destruct (Py.is_space d); [destruct b|]; simpl; now rewrite IH.
Qed.

Lemma ws_sub_idem (b : bool) (s : pystr) :
  Py.ws_sub b (Py.ws_sub b s) = Py.ws_sub b s.
Proof.
  revert b. induction s as [|c r IH]; intros b; simpl; [reflexivity|].
  destruct (Py.is_space c) eqn:Hc.
  - destruct b; simpl; [apply IH|]. now rewrite IH.
  - simpl. now rewrite Hc, IH.
Qed.

Lemma In_ws_sub (x : N) (b : bool) (s : pystr) :
  x <> 32 -> In x (Py.ws_sub b s) -> In x s.
Proof.
  intros Hx. revert b. induction s as [|c r IH]; intros b; simpl; [tauto|].
  destruct (Py.is_space c).
  - destruct b; simpl; intros H.
    + right. eapply IH, H.
    + destruct H as [H|H]; [congruence|]. right. eapply IH, H.
  - simpl. intros [H|H]; [now left|]. right. eapply IH, H.
Qed.

Lemma ws_sub_trimmed (s : pystr) : trimmed s -> trimmed (Py.ws_sub false s).
Proof.
  intros [H1 H2]. split.
  - destruct s as [|c r]; [reflexivity|]. simpl in *.
    destruct (Py.is_space c) eqn:Hc; [discriminate|]. simpl. now rewrite Hc.
  - destruct (rev s) as [|c r] eqn:E.
    + apply (f_equal (@rev N)) in E. rewrite rev_involutive in E. now subst s.
    + apply (f_equal (@rev N)) in E. rewrite rev_involutive in E. simpl in E.
      simpl in H2. apply negb_true_iff in H2.
      rewrite E, ws_sub_snoc, rev_app_distr by exact H2. simpl.
      now rewrite H2.
Qed.

(** ** The normaliser *)

Section NormFacts.

Variable upper_cp : N -> pystr.

Local Abbreviation upper := (upper upper_cp).
Local Abbreviation _norm := (_norm upper_cp).
Local Abbreviation joined := (joined upper_cp).
Local Abbreviation dv2_hash := (dv2_hash upper_cp).

Lemma upper_app (a b : pystr) : upper (a ++ b) = upper a ++ upper b.
Proof. apply flat_map_app. Qed.

(** The early return of [_norm] on the empty string is what the general path
    computes as well. *)
Lemma norm_unfold (v : value) :
  v <> VNone ->
  _norm v = let s := _WS_RE_sub (upper (Py.strip (Py.str v))) in
            match s with
            | [] => _NULL
            | _ :: _ => s
            end.
Proof.
  destruct v as [|[|c r]|z]; intros H; try reflexivity. congruence.
Qed.

Lemma norm_not_nil (v : value) : _norm v <> [].
Proof.
  destruct v as [|s|z]; [discriminate| |];
    rewrite norm_unfold by discriminate;
    destruct (_WS_RE_sub _); discriminate.
Qed.

Lemma In_upper (x : N) (s : pystr) :
  (forall c, In x (upper_cp c) -> c = x) -> In x (upper s) -> In x s.
Proof.
  intros Hx H. apply in_flat_map in H as [c [Hc Hin]].
  now rewrite <- (Hx c Hin).
Qed.

(** A character that [upper] does not create and that is not the space
    comes from the sentinel or from the input. *)
Lemma In_norm (x : N) (v : value) :
  x <> 32 -> (forall c, In x (upper_cp c) -> c = x) ->
  In x (_norm v) -> In x _NULL \/ In x (Py.str v).
Proof.
  intros H32 Hx. destruct v as [|s|z]; [now left| |];
    rewrite norm_unfold by discriminate; unfold _WS_RE_sub;
    destruct (Py.ws_sub false _) eqn:E; try (now left);
    rewrite <- E; intros H; right;
    apply In_strip, (In_upper x _ Hx), (In_ws_sub x false _ H32 H).
Qed.

Lemma norm_blank (v : value) : blank (Py.str v) = true -> _norm v = _NULL.
Proof.
  intros H. destruct v as [|s|z]; [reflexivity| |];
    rewrite norm_unfold by discriminate; now rewrite (strip_blank _ H).
Qed.

(** *** Facts of the Unicode upper-case table that the proofs use *)

(** White space has no case. *)
Hypothesis upper_space :
  forall c, Py.is_space c = true -> upper_cp c = [c].

(** No character becomes empty or white space. *)
Hypothesis upper_nonspace :
  forall c, Py.is_space c = false ->
    upper_cp c <> [] /\ forallb (fun d => negb (Py.is_space d)) (upper_cp c) = true.

Lemma ws_sub_nonspace (b : bool) (l x : pystr) :
  l <> [] -> forallb (fun d => negb (Py.is_space d)) l = true ->
  Py.ws_sub b (l ++ x) = l ++ Py.ws_sub false x.
Proof.
  revert b. induction l as [|d l IH]; intros b Hl Hf; [congruence|].
  simpl in Hf. apply andb_true_iff in Hf as [Hd Hf].
  apply negb_true_iff in Hd. simpl. rewrite Hd.
  destruct l as [|d' l']; [reflexivity|].
  f_equal. apply IH; [discriminate | exact Hf].
Qed.

(** Upper-casing and collapsing white space commute. *)
Lemma ws_sub_upper (b : bool) (s : pystr) :
  Py.ws_sub b (upper s) = upper (Py.ws_sub b s).
Proof.
  revert b. induction s as [|c r IH]; intros b; [reflexivity|].
  change (upper (c :: r)) with (upper_cp c ++ upper r). simpl.
  destruct (Py.is_space c) eqn:Hc.
  - rewrite (upper_space c Hc). simpl. rewrite Hc.
    destruct b; [apply IH|].
    change (upper (32 :: Py.ws_sub true r))
      with (upper_cp 32 ++ upper (Py.ws_sub true r)).
    rewrite (upper_space 32 eq_refl). simpl. now rewrite IH.
  - destruct (upper_nonspace c Hc) as [Hn Hf].
    rewrite (ws_sub_nonspace b _ _ Hn Hf), IH. reflexivity.
Qed.

Lemma hd_ok_upper (s : pystr) : hd_ok s = true -> hd_ok (upper s) = true.
Proof.
  destruct s as [|c r]; [reflexivity|]. simpl. intros Hc.
  apply negb_true_iff in Hc. destruct (upper_nonspace c Hc) as [Hn Hf].
  destruct (upper_cp c) as [|d l]; [congruence|]. simpl in *.
  now apply andb_true_iff in Hf as [Hd _].
Qed.

Lemma upper_trimmed (s : pystr) : trimmed s -> trimmed (upper s).
Proof.
  intros [H1 H2]. split; [now apply hd_ok_upper|].
  destruct (rev s) as [|c r] eqn:E;
    apply (f_equal (@rev N)) in E; rewrite rev_involutive in E; subst s;
    [reflexivity|].
  simpl in H2. apply negb_true_iff in H2.
  destruct (upper_nonspace c H2) as [Hn Hf].
  simpl. rewrite upper_app, rev_app_distr. simpl. rewrite app_nil_r.
  rewrite hd_ok_app.
  - destruct (rev (upper_cp c)) as [|d l] eqn:Er; [reflexivity|]. simpl.
    assert (Hin : In d (upper_cp c)).
    { apply in_rev. rewrite Er. now left. }
    rewrite forallb_forall in Hf. now apply Hf.
  - intros Hr. apply Hn. apply (f_equal (@rev N)) in Hr.
    now rewrite rev_involutive in Hr.
Qed.

Lemma upper_strip_not_nil (s : pystr) :
  blank s = false -> _WS_RE_sub (upper (Py.strip s)) <> [].
Proof.
  intros Hb.
  destruct (Py.strip s) as [|c r] eqn:E.
  - apply strip_nil_blank in E. congruence.
  - pose proof (strip_trimmed s) as [H1 _]. rewrite E in H1. simpl in H1.
    apply negb_true_iff in H1. destruct (upper_nonspace c H1) as [Hn Hf].
    change (upper (c :: r)) with (upper_cp c ++ upper r).
    unfold _WS_RE_sub. rewrite (ws_sub_nonspace false _ _ Hn Hf).
    destruct (upper_cp c); [congruence | discriminate].
Qed.

(** On an input with a character that is not white space, [_norm] is the
    pipeline strip, upper, substitute: the fallback to the sentinel is not
    taken. *)
Lemma norm_nonblank (v : value) :
  v <> VNone -> blank (Py.str v) = false ->
  _norm v = _WS_RE_sub (upper (Py.strip (Py.str v))).
Proof.
  intros Hv Hb. rewrite (norm_unfold v Hv).
  pose proof (upper_strip_not_nil _ Hb) as Hn.
  destruct (_WS_RE_sub _); [congruence | reflexivity].
Qed.

(** C4 (as amended).  For every non-null value whose string representation
    has a character that is not white space, [_norm] returns the string
    representation trimmed, its runs of white space collapsed to one space,
    and upper-cased: the pipeline of the specification, which collapses
    before it upper-cases, and the one of the code, which upper-cases first,
    agree. *)
Theorem C4_norm_refines_spec (v : value) :
  v <> VNone -> blank (Py.str v) = false ->
  _norm v = spec_normalize upper_cp v.
Proof.
  intros Hv Hb. rewrite (norm_nonblank v Hv Hb).
  unfold spec_normalize, _WS_RE_sub. apply ws_sub_upper.
Qed.

(** C9.  A non-empty string of white space only normalises to the sentinel,
    the token of null and of the empty string. *)
Theorem C9_blank_is_sentinel (s : pystr) :
  s <> [] -> blank s = true ->
  _norm (VStr s) = _NULL /\ _norm (VStr s) = _norm VNone
  /\ _norm (VStr s) = _norm (VStr []).
Proof.
  intros _ Hb. rewrite (norm_blank (VStr s) Hb). repeat split.
Qed.

(** C6.  Null and the empty string have the same token. *)
Theorem C6_null_empty_same_token : _norm VNone = _norm (VStr []).
Proof. reflexivity. Qed.

Lemma dv2_hash_tokens (cols1 cols2 : list value) :
  map _norm cols1 = map _norm cols2 -> dv2_hash cols1 = dv2_hash cols2.
Proof.
  intros H. unfold dv2_hash, joined. now rewrite H.
Qed.

(** C8.  [dv2_hash] is a function of the normalised tokens of its input:
    two sequences of values with the same tokens have the same digest (and
    raise together when the joined string cannot be encoded); in particular
    two evaluations on one sequence agree. *)
Theorem C8_dv2_hash_deterministic (cols1 cols2 : list value) :
  map _norm cols1 = map _norm cols2 -> dv2_hash cols1 = dv2_hash cols2.
Proof. exact (dv2_hash_tokens cols1 cols2). Qed.

(** *** The separator *)

Lemma app_sep_inj (x y t1 t2 : pystr) :
  ~ In SEP x -> ~ In SEP y ->
  (t1 = [] \/ exists t, t1 = SEP :: t) ->
  (t2 = [] \/ exists t, t2 = SEP :: t) ->
  x ++ t1 = y ++ t2 -> x = y /\ t1 = t2.
Proof.
  revert y. induction x as [|a x IH]; intros y Hx Hy H1 H2 E.
  - destruct y as [|b y]; [now split|]. exfalso. apply Hy. simpl in E.
    destruct H1 as [->|[t ->]]; [discriminate|]. injection E as <- _.
    now left.
  - destruct y as [|b y].
    + exfalso. apply Hx. simpl in E.
      destruct H2 as [->|[t ->]]; [discriminate|]. injection E as -> _.
      now left.
    + simpl in E. injection E as -> E.
      destruct (IH y) as [-> ->]; auto.
      * intros H. apply Hx. now right.
      * intros H. apply Hy. now right.
Qed.

Lemma join_cons (x : pystr) (r : list pystr) :
  Py.join [SEP] (x :: r)
  = x ++ match r with [] => [] | _ :: _ => SEP :: Py.join [SEP] r end.
Proof. destruct r; simpl; [now rewrite app_nil_r | reflexivity]. Qed.

(** Tokens that are not empty and hold no separator can be read back from
    the joined string. *)
Lemma join_inj (l1 l2 : list pystr) :
  Forall (fun t => t <> [] /\ ~ In SEP t) l1 ->
  Forall (fun t => t <> [] /\ ~ In SEP t) l2 ->
  Py.join [SEP] l1 = Py.join [SEP] l2 -> l1 = l2.
Proof.
  revert l2. induction l1 as [|x r1 IH]; intros l2 F1 F2 E.
  - destruct l2 as [|y r2]; [reflexivity|]. exfalso.
    rewrite join_cons in E. inversion F2 as [|? ? [Hy _] _]; subst.
    destruct y; [congruence | discriminate].
  - destruct l2 as [|y r2].
    + exfalso. rewrite join_cons in E. inversion F1 as [|? ? [Hx _] _]; subst.
      destruct x; [congruence | discriminate].
    + rewrite !join_cons in E.
      inversion F1 as [|? ? [_ Hx] F1']; subst.
      inversion F2 as [|? ? [_ Hy] F2']; subst.
      apply app_sep_inj in E as [-> E]; auto.
      * f_equal. destruct r1 as [|a r1], r2 as [|b r2];
          try discriminate; [reflexivity|].
        injection E as E. now apply IH.
      * destruct r1; [now left | right; eauto].
      * destruct r2; [now left | right; eauto].
Qed.

(** The upper-case table maps nothing else to the separator. *)
Hypothesis upper_sep : forall c, In SEP (upper_cp c) -> c = SEP.

Lemma norm_sep_free (v : value) : ~ In SEP (Py.str v) -> ~ In SEP (_norm v).
Proof.
  intros Hv H. apply In_norm in H as [H|H]; [| contradiction | discriminate | exact upper_sep].
  unfold SEP, _NULL in H. simpl in H.
  repeat (destruct H as [H|H]; [discriminate|]). exact H.
Qed.

(** C2 (as amended).  The separator does not occur in the sentinel, nor in
    the token of a value whose string representation is free of it; for two
    sequences of such values with different token sequences the joined
    strings that are hashed differ. *)
Theorem C2_separator_apart :
  ~ In SEP _NULL
  /\ (forall v, ~ In SEP (Py.str v) -> ~ In SEP (_norm v))
  /\ (forall cols1 cols2,
        (forall v, In v cols1 \/ In v cols2 -> ~ In SEP (Py.str v)) ->
        map _norm cols1 <> map _norm cols2 ->
        joined cols1 <> joined cols2).
Proof.
  split; [|split].
  - unfold SEP, _NULL. simpl. intros H.
    repeat (destruct H as [H|H]; [discriminate|]). exact H.
  - exact norm_sep_free.
  - intros cols1 cols2 Hfree Hne E. apply Hne.
    apply join_inj; [| | exact E]; apply Forall_forall; intros t Ht;
      apply in_map_iff in Ht as [v [<- Hv]];
      (split; [apply norm_not_nil | apply norm_sep_free, Hfree; tauto]).
Qed.

(** *** The sentinel *)

(** The upper-case table maps nothing else to the section sign. *)
Hypothesis upper_sect : forall c, In 0xA7 (upper_cp c) -> c = 0xA7.

(** C3 (as amended).  Null and the empty string map to the sentinel, and the
    sentinel differs from the token of every non-null value whose string
    representation has a character that is not white space and has no
    section sign; the string NULL is one of them. *)
Theorem C3_sentinel_reserved :
  _norm VNone = _NULL /\ _norm (VStr []) = _NULL
  /\ (forall v, v <> VNone -> blank (Py.str v) = false ->
        ~ In 0xA7 (Py.str v) -> _norm v <> _NULL)
  /\ _norm (VStr [78; 85; 76; 76]) <> _NULL.
Proof.
  assert (G : forall v, v <> VNone -> blank (Py.str v) = false ->
                ~ In 0xA7 (Py.str v) -> _norm v <> _NULL).
  { intros v Hv Hb Hfree E. apply Hfree.
    assert (H : In 0xA7 (_norm v)) by (rewrite E; now left).
    rewrite (norm_nonblank v Hv Hb) in H.
    apply In_strip, (In_upper _ _ upper_sect).
    apply (In_ws_sub _ false); [discriminate | exact H]. }
  repeat split; [exact G|].
  apply G; [discriminate | reflexivity |]. simpl. intros H.
  repeat (destruct H as [H|H]; [discriminate|]). exact H.
Qed.

(** *** Idempotence *)

(** Upper-casing an upper-cased character changes nothing. *)
Hypothesis upper_idem : forall c, upper (upper_cp c) = upper_cp c.

(** The sentinel is in upper case. *)
Hypothesis upper_NULL : upper _NULL = _NULL.

Lemma upper_upper (s : pystr) : upper (upper s) = upper s.
Proof.
  induction s as [|c r IH]; [reflexivity|].
  change (upper (c :: r)) with (upper_cp c ++ upper r).
  now rewrite upper_app, upper_idem, IH.
Qed.

Lemma norm_NULL : _norm (VStr _NULL) = _NULL.
Proof.
  rewrite norm_unfold by discriminate.
  change (Py.strip (Py.str (VStr _NULL))) with _NULL.
  now rewrite upper_NULL.
Qed.

Lemma norm_cases (v : value) :
  _norm v = _NULL
  \/ exists x, trimmed x /\ _norm v = _WS_RE_sub (upper x)
               /\ _WS_RE_sub (upper x) <> [].
Proof.
  destruct v as [|s|z]; [now left| |];
    rewrite norm_unfold by discriminate; cbv zeta;
    (destruct (_WS_RE_sub (upper (Py.strip (Py.str _)))) as [|c r] eqn:E;
     [now left|]);
    right; eexists; (split; [apply strip_trimmed|]); rewrite E;
    (split; [reflexivity | discriminate]).
Qed.

Lemma ws_sub_upper_fix (x : pystr) :
  _WS_RE_sub (upper (_WS_RE_sub (upper x))) = _WS_RE_sub (upper x).
Proof.
  unfold _WS_RE_sub.
  now rewrite <- (ws_sub_upper false (upper x)), upper_upper, ws_sub_idem.
Qed.

Lemma norm_idem (v : value) : _norm (VStr (_norm v)) = _norm v.
Proof.
  destruct (norm_cases v) as [H | [x [Hx [H Hn]]]]; rewrite H.
  - exact norm_NULL.
  - assert (Ht : trimmed (_WS_RE_sub (upper x)))
      by (apply ws_sub_trimmed, upper_trimmed, Hx).
    rewrite norm_unfold by discriminate. cbv zeta.
    change (Py.str (VStr (_WS_RE_sub (upper x)))) with (_WS_RE_sub (upper x)).
    rewrite (trimmed_strip _ Ht), ws_sub_upper_fix.
    destruct (_WS_RE_sub (upper x)); [congruence | reflexivity].
Qed.

(** C10.  [_norm] is idempotent, and [dv2_hash] gives the same digest on a
    sequence of values and on the sequence of their tokens. *)
Theorem C10_norm_idempotent :
  (forall v, _norm (VStr (_norm v)) = _norm v)
  /\ (forall cols, dv2_hash cols = dv2_hash (map (fun c => VStr (_norm c)) cols)).
Proof.
  split; [exact norm_idem|].
  intros cols. apply dv2_hash_tokens. rewrite map_map.
  apply map_ext. intros v. symmetry. apply norm_idem.
Qed.

End NormFacts.

(** ** The Latin-1 table is an instance of the hypotheses *)

Lemma is_space_spec (c : N) :
  Py.is_space c = true <->
  (9 <= c <= 13 \/ 28 <= c <= 32 \/ c = 0x85 \/ c = 0xA0 \/ c = 0x1680
   \/ 0x2000 <= c <= 0x200A \/ c = 0x2028 \/ c = 0x2029 \/ c = 0x202F
   \/ c = 0x205F \/ c = 0x3000).
Proof.
  unfold Py.is_space.
  rewrite !orb_true_iff, !andb_true_iff, !N.leb_le, !N.eqb_eq. tauto.
Qed.

Lemma is_space_false_spec (c : N) :
  Py.is_space c = false <->
  ~ (9 <= c <= 13 \/ 28 <= c <= 32 \/ c = 0x85 \/ c = 0xA0 \/ c = 0x1680
     \/ 0x2000 <= c <= 0x200A \/ c = 0x2028 \/ c = 0x2029 \/ c = 0x202F
     \/ c = 0x205F \/ c = 0x3000).
Proof. rewrite <- is_space_spec. now destruct (Py.is_space c). Qed.

Lemma upper_latin1_cases (c : N) :
  (97 <= c <= 122 /\ upper_latin1 c = [c - 32])
  \/ (c = 0xB5 /\ upper_latin1 c = [0x39C])
  \/ (c = 0xDF /\ upper_latin1 c = [83; 83])
  \/ (c = 0xFF /\ upper_latin1 c = [0x178])
  \/ (0xE0 <= c <= 0xFE /\ c <> 0xDF /\ c <> 0xF7 /\ upper_latin1 c = [c - 32])
  \/ (~ 97 <= c <= 122 /\ c <> 0xB5 /\ ~ (0xDF <= c <= 0xFF /\ c <> 0xF7)
      /\ upper_latin1 c = [c]).
Proof.
  unfold upper_latin1.
  destruct ((97 <=? c) && (c <=? 122)) eqn:E1.
  { apply andb_true_iff in E1 as [A B]. apply N.leb_le in A, B. left. now split. }
  destruct (N.eqb_spec c 0xB5) as [E2|E2]; [right; left; now split|].
  destruct (N.eqb_spec c 0xDF) as [E3|E3]; [right; right; left; now split|].
  destruct (N.eqb_spec c 0xFF) as [E4|E4]; [right; right; right; left; now split|].
  destruct ((0xE0 <=? c) && (c <=? 0xFE) && negb (c =? 0xF7)) eqn:E5.
  { apply andb_true_iff in E5 as [E5 C]. apply andb_true_iff in E5 as [A B].
    apply N.leb_le in A, B. apply negb_true_iff, N.eqb_neq in C.
    right; right; right; right; left. repeat split; assumption. }
  right; right; right; right; right.
  apply andb_false_iff in E1. rewrite !N.leb_gt in E1.
  apply andb_false_iff in E5. rewrite andb_false_iff, !N.leb_gt in E5.
  rewrite negb_false_iff, N.eqb_eq in E5.
  repeat split; lia.
Qed.

Ltac latin1_cases c :=
  let H := fresh "H" in
  destruct (upper_latin1_cases c) as [H|[H|[H|[H|[H|H]]]]];
  decompose [and] H; clear H.

Lemma latin1_space (c : N) : Py.is_space c = true -> upper_latin1 c = [c].
Proof.
  rewrite is_space_spec. intros Hs.
  latin1_cases c; try assumption; exfalso; lia.
Qed.

Lemma latin1_nonspace (c : N) :
  Py.is_space c = false ->
  upper_latin1 c <> []
  /\ forallb (fun d => negb (Py.is_space d)) (upper_latin1 c) = true.
Proof.
  rewrite is_space_false_spec. intros Hs.
  latin1_cases c;
    match goal with E : upper_latin1 c = _ |- _ => rewrite E end;
    (split; [discriminate|]); simpl; rewrite ?andb_true_r;
    try reflexivity; apply negb_true_iff, is_space_false_spec; lia.
Qed.

Lemma latin1_only (x c : N) :
  x = SEP \/ x = 0xA7 -> In x (upper_latin1 c) -> c = x.
Proof.
  unfold SEP. intros Hx.
  latin1_cases c;
    match goal with E : upper_latin1 c = _ |- _ => rewrite E end;
    simpl; intros Hin; lia.
Qed.

Lemma latin1_sep (c : N) : In SEP (upper_latin1 c) -> c = SEP.
Proof. apply latin1_only. now left. Qed.

Lemma latin1_sect (c : N) : In 0xA7 (upper_latin1 c) -> c = 0xA7.
Proof. apply latin1_only. now right. Qed.

Lemma latin1_fix (c : N) :
  ~ 97 <= c <= 122 -> c <> 0xB5 -> ~ (0xDF <= c <= 0xFF /\ c <> 0xF7) ->
  upper_latin1 c = [c].
Proof. intros. latin1_cases c; try assumption; exfalso; lia. Qed.

Lemma latin1_idem (c : N) :
  upper upper_latin1 (upper_latin1 c) = upper_latin1 c.
Proof.
  latin1_cases c;
    match goal with E : upper_latin1 c = _ |- _ => rewrite E end;
    unfold upper; simpl; rewrite ?app_nil_r;
    try reflexivity; rewrite latin1_fix; try reflexivity; lia.
Qed.

Lemma latin1_NULL : upper upper_latin1 _NULL = _NULL.
Proof. reflexivity. Qed.

Lemma upper_ext_in (up1 up2 : N -> pystr) (s : pystr) :
  (forall c, In c s -> up1 c = up2 c) -> upper up1 s = upper up2 s.
Proof.
  induction s as [|c r IH]; intros H; [reflexivity|].
  unfold upper in *. simpl. rewrite (H c), IH; [reflexivity | | now left].
  intros d Hd. apply H. now right.
Qed.

(** [_norm] reads the table at the characters of its input only: what is
    computed below with the Latin-1 table holds for every table that agrees
    with it there. *)
Lemma norm_ext (up1 up2 : N -> pystr) (v : value) :
  (forall c, In c (Py.str v) -> up1 c = up2 c) -> _norm up1 v = _norm up2 v.
Proof.
  intros H.
  assert (E : upper up1 (Py.strip (Py.str v)) = upper up2 (Py.strip (Py.str v))).
  { apply upper_ext_in. intros c Hc. apply H, In_strip, Hc. }
  destruct v as [|s|z]; [reflexivity| |];
    rewrite !norm_unfold by discriminate; now rewrite E.
Qed.

(** ** Concrete inputs *)

(** C4, on [" John  Doe "]. *)
Lemma C4_witness :
  blank [32; 74; 111; 104; 110; 32; 32; 68; 111; 101; 32] = false
  /\ _norm upper_latin1 (VStr [32; 74; 111; 104; 110; 32; 32; 68; 111; 101; 32])
     = spec_normalize upper_latin1
         (VStr [32; 74; 111; 104; 110; 32; 32; 68; 111; 101; 32]).
Proof.
  split; [reflexivity|].
  apply (C4_norm_refines_spec upper_latin1 latin1_space latin1_nonspace);
    [discriminate | reflexivity].
Defined.

(** C4 as stated fails on the string of three spaces: it is neither null nor
    empty, trimming, collapsing and upper-casing it gives the empty string,
    and [_norm] returns the sentinel. *)
Lemma C4_counterexample :
  VStr [32; 32; 32] <> VNone /\ VStr [32; 32; 32] <> VStr []
  /\ spec_normalize upper_latin1 (VStr [32; 32; 32]) = []
  /\ _norm upper_latin1 (VStr [32; 32; 32]) = _NULL
  /\ _norm upper_latin1 (VStr [32; 32; 32])
     <> spec_normalize upper_latin1 (VStr [32; 32; 32]).
Proof. repeat split; discriminate. Qed.

(** C9, on a tab, a no-break space and a line feed. *)
Lemma C9_witness :
  _norm upper_latin1 (VStr [9; 0xA0; 10]) = _NULL
  /\ _norm upper_latin1 (VStr [9; 0xA0; 10]) = _norm upper_latin1 VNone
  /\ _norm upper_latin1 (VStr [9; 0xA0; 10]) = _norm upper_latin1 (VStr []).
Proof.
  apply (C9_blank_is_sentinel upper_latin1); [discriminate | reflexivity].
Defined.

(** C8, on [[" John  Doe "; None]] and [["JOHN DOE"; ""]]. *)
Lemma C8_witness :
  dv2_hash upper_latin1
    [VStr [32; 74; 111; 104; 110; 32; 32; 68; 111; 101; 32]; VNone]
  = dv2_hash upper_latin1 [VStr [74; 79; 72; 78; 32; 68; 79; 69]; VStr []].
Proof. apply (C8_dv2_hash_deterministic upper_latin1). reflexivity. Defined.

(** C2 as stated fails on ["a|b"]: its token holds the separator, and the
    one-column sequence [["a|b"]] is joined to the same string as the
    two-column sequence [["a"; "b"]]. *)
Lemma C2_counterexample :
  In SEP (_norm upper_latin1 (VStr [97; 124; 98]))
  /\ map (_norm upper_latin1) [VStr [97; 124; 98]]
     <> map (_norm upper_latin1) [VStr [97]; VStr [98]]
  /\ joined upper_latin1 [VStr [97; 124; 98]]
     = joined upper_latin1 [VStr [97]; VStr [98]]
  /\ dv2_hash upper_latin1 [VStr [97; 124; 98]]
     = dv2_hash upper_latin1 [VStr [97]; VStr [98]].
Proof.
  split; [right; now left|]. split; [discriminate|]. split; reflexivity.
Qed.

(** C2, on [["a"; None]] and [["a b"]]. *)
Lemma C2_witness :
  ~ In SEP (_norm upper_latin1 (VStr [97; 32; 98]))
  /\ joined upper_latin1 [VStr [97]; VNone]
     <> joined upper_latin1 [VStr [97; 32; 98]].
Proof.
  destruct (C2_separator_apart upper_latin1 latin1_sep) as [_ [H1 H2]].
  split.
  - apply H1. simpl. intros H.
    repeat (destruct H as [H|H]; [discriminate|]). exact H.
  - apply H2; [|discriminate].
    intros v [H|H]; simpl in H;
      repeat (destruct H as [H|H]; [subst v|]); try contradiction;
      simpl; intros H;
      repeat (destruct H as [H|H]; [discriminate|]); exact H.
Defined.

(** C3 as stated fails on two strings that are neither null nor empty and
    whose token is the sentinel: three spaces, and ["§null§"]. *)
Lemma C3_counterexample :
  (VStr [32; 32; 32] <> VNone /\ VStr [32; 32; 32] <> VStr []
   /\ _norm upper_latin1 (VStr [32; 32; 32]) = _NULL)
  /\ (VStr [0xA7; 110; 117; 108; 108; 0xA7] <> VNone
      /\ VStr [0xA7; 110; 117; 108; 108; 0xA7] <> VStr []
      /\ _norm upper_latin1 (VStr [0xA7; 110; 117; 108; 108; 0xA7]) = _NULL).
Proof. repeat split; discriminate. Qed.

(** C3, on the integer 0 and on the string NULL. *)
Lemma C3_witness :
  _norm upper_latin1 (VInt 0) <> _NULL
  /\ _norm upper_latin1 (VStr [78; 85; 76; 76]) <> _NULL.
Proof.
  destruct (C3_sentinel_reserved upper_latin1 latin1_nonspace latin1_sect)
    as [_ [_ [H1 H2]]].
  split; [|exact H2].
  apply H1; [discriminate | reflexivity |]. simpl. intros H.
  repeat (destruct H as [H|H]; [discriminate|]). exact H.
Defined.

(** C10, on [" John  Doe "]. *)
Lemma C10_witness :
  _norm upper_latin1
    (VStr (_norm upper_latin1
             (VStr [32; 74; 111; 104; 110; 32; 32; 68; 111; 101; 32])))
  = [74; 79; 72; 78; 32; 68; 79; 69]
  /\ dv2_hash upper_latin1 [VStr [32; 74; 111; 104; 110; 32; 32; 68; 111; 101; 32]]
     = dv2_hash upper_latin1 [VStr [74; 79; 72; 78; 32; 68; 79; 69]].
Proof.
  destruct (C10_norm_idempotent upper_latin1 latin1_space latin1_nonspace
              latin1_idem latin1_NULL) as [H1 H2].
  split; [rewrite H1; reflexivity | exact (H2 _)].
Defined.

(** ** UTF-8 is injective *)

(** The bytes of a code point, by the base-64 digits of the code point. *)
Lemma encode_cp_shape (c : N) (b : list N) :
  Utf8.encode_cp c = Some b ->
  exists q1 r1 q2 r2 q3 r3,
    c = 64 * q1 + r1 /\ r1 < 64 /\ q1 = 64 * q2 + r2 /\ r2 < 64
    /\ q2 = 64 * q3 + r3 /\ r3 < 64
    /\ ((c < 0x80 /\ b = [c])
        \/ (0x80 <= c < 0x800 /\ b = [0xC0 + q1; 0x80 + r1])
        \/ (0x800 <= c < 0x10000 /\ b = [0xE0 + q2; 0x80 + r2; 0x80 + r1])
        \/ (0x10000 <= c < 0x110000
            /\ b = [0xF0 + q3; 0x80 + r3; 0x80 + r2; 0x80 + r1])).
Proof.
  unfold Utf8.encode_cp. intros H.
  replace (c / 262144) with (c / 64 / 64 / 64) in H
    by (rewrite !N.Div0.div_div; reflexivity).
  replace (c / 4096) with (c / 64 / 64) in H
    by (rewrite !N.Div0.div_div; reflexivity).
  exists (c / 64), (c mod 64), (c / 64 / 64), ((c / 64) mod 64),
    (c / 64 / 64 / 64), ((c / 64 / 64) mod 64).
  pose proof (N.div_mod c 64 ltac:(discriminate)).
  pose proof (N.mod_lt c 64 ltac:(discriminate)).
  pose proof (N.div_mod (c / 64) 64 ltac:(discriminate)).
  pose proof (N.mod_lt (c / 64) 64 ltac:(discriminate)).
  pose proof (N.div_mod (c / 64 / 64) 64 ltac:(discriminate)).
  pose proof (N.mod_lt (c / 64 / 64) 64 ltac:(discriminate)).
  repeat (split; [assumption|]).
  destruct (N.ltb_spec c 0x80); [injection H as <-; left; now split|].
  destruct (N.ltb_spec c 0x800); [injection H as <-; right; left; now split|].
  destruct (N.ltb_spec c 0x10000).
  { destruct ((0xD800 <=? c) && (c <=? 0xDFFF)); [discriminate|].
    injection H as <-. right; right; left. now split. }
  destruct (N.ltb_spec c 0x110000); [|discriminate].
  injection H as <-. right; right; right. now split.
Qed.

Lemma cons_inj {A : Type} (a b : A) (l m : list A) :
  a :: l = b :: m -> a = b /\ l = m.
Proof. intros H. injection H as -> ->. now split. Qed.

Lemma encode_cp_inj (c1 c2 : N) (b1 b2 r1 r2 : list N) :
  Utf8.encode_cp c1 = Some b1 -> Utf8.encode_cp c2 = Some b2 ->
  b1 ++ r1 = b2 ++ r2 -> c1 = c2 /\ r1 = r2.
Proof.
  intros H1 H2 E.
  apply encode_cp_shape in H1
    as (q1 & s1 & q2 & s2 & q3 & s3 & ? & ? & ? & ? & ? & ? & S1).
  apply encode_cp_shape in H2
    as (p1 & t1 & p2 & t2 & p3 & t3 & ? & ? & ? & ? & ? & ? & S2).
  destruct S1 as [[? ->]|[[? ->]|[[? ->]|[? ->]]]];
    destruct S2 as [[? ->]|[[? ->]|[[? ->]|[? ->]]]];
    cbn [app] in E;
    repeat match type of E with
           | _ :: _ = _ :: _ => apply cons_inj in E; destruct E as [? E]
           end;
    first [ exfalso; lia | split; [lia | assumption] ].
Qed.

Lemma encode_cp_not_nil (c : N) : Utf8.encode_cp c <> Some [].
Proof.
  intros H. apply encode_cp_shape in H
    as (q1 & s1 & q2 & s2 & q3 & s3 & _ & _ & _ & _ & _ & _ & S1).
  destruct S1 as [[? ?]|[[? ?]|[[? ?]|[? ?]]]]; discriminate.
Qed.

Lemma encode_inj (s1 s2 : pystr) (b : list N) :
  Utf8.encode s1 = Some b -> Utf8.encode s2 = Some b -> s1 = s2.
Proof.
  revert s2 b. induction s1 as [|c1 r1 IH]; intros [|c2 r2] b H1 H2;
    simpl in *.
  - reflexivity.
  - injection H1 as <-.
    destruct (Utf8.encode_cp c2) as [b2|] eqn:E2; [|discriminate].
    destruct (Utf8.encode r2); [|discriminate].
    injection H2 as H2. apply app_eq_nil in H2 as [-> _].
    now apply encode_cp_not_nil in E2.
  - injection H2 as <-.
    destruct (Utf8.encode_cp c1) as [b1|] eqn:E1; [|discriminate].
    destruct (Utf8.encode r1); [|discriminate].
    injection H1 as H1. apply app_eq_nil in H1 as [-> _].
    now apply encode_cp_not_nil in E1.
  - destruct (Utf8.encode_cp c1) as [b1|] eqn:E1; [|discriminate].
    destruct (Utf8.encode r1) as [br1|] eqn:Er1; [|discriminate].
    destruct (Utf8.encode_cp c2) as [b2|] eqn:E2; [|discriminate].
    destruct (Utf8.encode r2) as [br2|] eqn:Er2; [|discriminate].
    injection H1 as <-. injection H2 as H2.
    destruct (encode_cp_inj _ _ _ _ _ _ E2 E1 H2) as [-> ->].
    f_equal. now apply (IH r2 br1).
Qed.

(** ** Business-key hash and row hash *)

Lemma join_split (p q : list pystr) (t : pystr) :
  Py.join [SEP] (p ++ t :: q)
  = flat_map (fun x => x ++ [SEP]) p ++ t
    ++ match q with [] => [] | _ :: _ => SEP :: Py.join [SEP] q end.
Proof.
  induction p as [|x p IH].
  - simpl. destruct q; [now rewrite app_nil_r | reflexivity].
  - change ((x :: p) ++ t :: q) with (x :: (p ++ t :: q)).
    rewrite join_cons, IH. destruct p; simpl; now rewrite <- !app_assoc.
Qed.

Section RowHash.

Variable upper_cp : N -> pystr.

Local Abbreviation _norm := (_norm upper_cp).
Local Abbreviation joined := (joined upper_cp).
Local Abbreviation dv2_hash := (dv2_hash upper_cp).
Local Abbreviation bk_hash_of := (bk_hash_of upper_cp).
Local Abbreviation row_hash_of := (row_hash_of upper_cp).

(** Two sequences that differ in one place are joined to the same string
    exactly when the tokens of that place are the same. *)
Lemma joined_one_place (pre post : list value) (a1 a2 : value) :
  joined (pre ++ a1 :: post) = joined (pre ++ a2 :: post)
  <-> _norm a1 = _norm a2.
Proof.
  unfold joined. rewrite !map_app. simpl. rewrite !join_split. split.
  - intros E. apply app_inv_head in E. now apply app_inv_tail in E.
  - now intros ->.
Qed.

(** Two sequences that are joined to different strings and have one digest:
    the byte strings given to SHA-256, the UTF-8 encodings of the two joined
    strings, are different and have that digest. *)
Lemma dv2_hash_collision_on (cols1 cols2 : list value) (h : pystr) :
  joined cols1 <> joined cols2 ->
  dv2_hash cols1 = Some h -> dv2_hash cols2 = Some h ->
  exists b1 b2,
    Utf8.encode (joined cols1) = Some b1
    /\ Utf8.encode (joined cols2) = Some b2
    /\ b1 <> b2
    /\ Sha256.hexdigest b1 = h /\ Sha256.hexdigest b2 = h.
Proof.
  unfold dv2_hash. intros Hne H1 H2.
  destruct (Utf8.encode (joined cols1)) as [b1|] eqn:E1; [|discriminate].
  destruct (Utf8.encode (joined cols2)) as [b2|] eqn:E2; [|discriminate].
  simpl in H1, H2. injection H1 as H1. injection H2 as H2.
  exists b1, b2. split; [reflexivity|]. split; [reflexivity|].
  split; [|split; assumption].
  intros ->. apply Hne. exact (encode_inj _ _ _ E1 E2).
Qed.

(** C7 (as amended).  Two records whose columns are the same but for one
    attribute column (a column after the two business-key columns) have the
    same [bk_hash].  When the tokens of that column are the same they have
    the same [row_hash] as well; when the tokens differ, the strings hashed
    for [row_hash] differ, and the two [row_hash] values can be equal only
    if SHA-256 gives one digest to the two byte strings hashed for the two
    records, the UTF-8 encodings of their joined strings, which are
    different byte strings. *)
Theorem C7_one_attribute_apart
    (r1 r2 : raw_row) (pre post : list value) (a1 a2 : value) :
  columns r1 = pre ++ a1 :: post ->
  columns r2 = pre ++ a2 :: post ->
  (2 <= length pre)%nat ->
  bk_hash_of r1 = bk_hash_of r2
  /\ (_norm a1 = _norm a2 -> row_hash_of r1 = row_hash_of r2)
  /\ (_norm a1 <> _norm a2 ->
      joined (columns r1) <> joined (columns r2)
      /\ forall h, row_hash_of r1 = Some h -> row_hash_of r2 = Some h ->
           exists b1 b2,
             Utf8.encode (joined (columns r1)) = Some b1
             /\ Utf8.encode (joined (columns r2)) = Some b2
             /\ b1 <> b2
             /\ Sha256.hexdigest b1 = h /\ Sha256.hexdigest b2 = h).
Proof.
  intros E1 E2 Hlen. split; [|split].
  - destruct pre as [|x [|y pre]]; simpl in Hlen; try lia.
    unfold columns in E1, E2. simpl in E1, E2.
    injection E1 as A1 B1 _. injection E2 as A2 B2 _.
    unfold bk_hash_of. now rewrite A1, B1, A2, B2.
  - intros Hn. unfold row_hash_of, dv2_hash. rewrite E1, E2.
    now rewrite (proj2 (joined_one_place pre post a1 a2) Hn).
  - intros Hn.
    assert (Hj : joined (columns r1) <> joined (columns r2)).
    { rewrite E1, E2. intros E. apply Hn. now apply joined_one_place in E. }
    split; [exact Hj|]. intros h. now apply dv2_hash_collision_on.
Qed.

End RowHash.

(** C7 as stated fails on two records that differ in [col5] only, ["abc"]
    against ["ABC"]: the two values have the same token and the records the
    same [row_hash]. *)
Lemma C7_counterexample :
  col1_bk (ex_row (VStr [97; 98; 99])) = col1_bk (ex_row (VStr [65; 66; 67]))
  /\ col2_bk (ex_row (VStr [97; 98; 99])) = col2_bk (ex_row (VStr [65; 66; 67]))
  /\ (exists pre post,
        columns (ex_row (VStr [97; 98; 99])) = pre ++ VStr [97; 98; 99] :: post
        /\ columns (ex_row (VStr [65; 66; 67])) = pre ++ VStr [65; 66; 67] :: post
        /\ length pre = 4%nat)
  /\ VStr [97; 98; 99] <> VStr [65; 66; 67]
  /\ row_hash_of upper_latin1 (ex_row (VStr [97; 98; 99])) <> None
  /\ row_hash_of upper_latin1 (ex_row (VStr [97; 98; 99]))
     = row_hash_of upper_latin1 (ex_row (VStr [65; 66; 67])).
Proof.
  split; [reflexivity|]. split; [reflexivity|]. split.
  { exists [VStr [65; 49]; VStr [83; 49]; VNone; VStr [72; 45; 49]],
      [VStr [55]; VNone; VStr [120]].
    split; [|split]; reflexivity. }
  split; [discriminate|]. split; [discriminate | reflexivity].
Qed.

(** C7, on two records that differ in [col5] only, ["abc"] against
    ["abd"]. *)
Lemma C7_witness :
  bk_hash_of upper_latin1 (ex_row (VStr [97; 98; 99]))
  = bk_hash_of upper_latin1 (ex_row (VStr [97; 98; 100]))
  /\ joined upper_latin1 (columns (ex_row (VStr [97; 98; 99])))
     <> joined upper_latin1 (columns (ex_row (VStr [97; 98; 100]))).
Proof.
  destruct (C7_one_attribute_apart upper_latin1
              (ex_row (VStr [97; 98; 99])) (ex_row (VStr [97; 98; 100]))
              [VStr [65; 49]; VStr [83; 49]; VNone; VStr [72; 45; 49]]
              [VStr [55]; VNone; VStr [120]]
              (VStr [97; 98; 99]) (VStr [97; 98; 100])
              eq_refl eq_refl) as [H1 [_ H2]].
  - simpl. lia.
  - split; [exact H1|]. apply H2. discriminate.
Defined.

(** ** The merge *)

Section MergeFacts.

Context {row key : Type}.
Variable key_eq_dec : forall a b : key, {a = b} + {a <> b}.
Variable pk : row -> key.

Local Abbreviation has_key := (has_key key_eq_dec pk).
Local Abbreviation merge := (insert_on_conflict_do_nothing key_eq_dec pk).

Lemma has_key_app (k : key) (a b : list row) :
  has_key k (a ++ b) = has_key k a || has_key k b.
Proof. apply existsb_app. Qed.

Lemma has_key_self (r : row) (l : list row) : has_key (pk r) (l ++ [r]) = true.
Proof.
  rewrite has_key_app. simpl. destruct (key_eq_dec (pk r) (pk r)); [|congruence].
  apply orb_true_r.
Qed.

(** The merge only appends: a key of the target stays. *)
Lemma merge_keeps (k : key) (temp tgt : list row) :
  has_key k tgt = true -> has_key k (merge tgt temp) = true.
Proof.
  revert tgt. induction temp as [|r rs IH]; intros tgt H; simpl; [exact H|].
  apply IH. destruct (has_key (pk r) tgt); [exact H|].
  rewrite has_key_app, H. reflexivity.
Qed.

(** After the merge every staged key is in the target. *)
Lemma merge_covers (temp tgt : list row) (r : row) :
  In r temp -> has_key (pk r) (merge tgt temp) = true.
Proof.
  revert tgt. induction temp as [|x rs IH]; intros tgt Hin; [destruct Hin|].
  simpl. destruct Hin as [->|Hin]; [|now apply IH].
  apply merge_keeps. destruct (has_key (pk r) tgt) eqn:E; [exact E|].
  apply has_key_self.
Qed.

(** A batch whose keys are all in the target inserts nothing. *)
Lemma merge_noop (temp tgt : list row) :
  (forall r, In r temp -> has_key (pk r) tgt = true) -> merge tgt temp = tgt.
Proof.
  induction temp as [|r rs IH]; intros H; simpl; [reflexivity|].
  rewrite (H r) by now left. apply IH. intros x Hx. apply H. now right.
Qed.

Lemma merge_length (temp tgt : list row) :
  (length tgt <= length (merge tgt temp) <= length tgt + length temp)%nat.
Proof.
  revert tgt. induction temp as [|r rs IH]; intros tgt; simpl; [lia|].
  specialize (IH (if has_key (pk r) tgt then tgt else tgt ++ [r])).
  destruct (has_key (pk r) tgt); [lia|].
  rewrite length_app in IH. simpl in IH. lia.
Qed.

Lemma add_pk_once_ok (t t' : table row) :
  add_pk_once key_eq_dec pk t = Ok t' -> t_rows t' = t_rows t /\ t_pk t' = true.
Proof.
  unfold add_pk_once. destruct (t_pk t) eqn:Ep.
  - intros E. injection E as <-. now split.
  - destruct (unique_keys _ _ _); [|discriminate].
    intros E. injection E as <-. now split.
Qed.

(** What a successful hashed write leaves: the merged rows under the
    primary key, and the batch in the staging table. *)
Lemma write_df_pk_ok (df : list row) (s s1 : store row) :
  _write_df key_eq_dec df (Some pk) s = Ok s1 ->
  exists old,
    old = match target s with Some t => t_rows t | None => [] end
    /\ s1 = Store (Some (Table (merge old df) true)) (Some df).
Proof.
  unfold _write_df. simpl.
  destruct (add_pk_once _ _ _) as [t'|e] eqn:Ea; [|discriminate].
  apply add_pk_once_ok in Ea as [Er Ep]. simpl. intros E. injection E as <-.
  rewrite Er, Ep. eexists. split; [reflexivity|].
  now destruct (target s).
Qed.

(** Writing a batch with the keys of the batch just merged succeeds and
    leaves the target table as it is. *)
Lemma write_df_again (df df' : list row) (s s1 : store row) :
  _write_df key_eq_dec df (Some pk) s = Ok s1 ->
  map pk df' = map pk df ->
  _write_df key_eq_dec df' (Some pk) s1 = Ok (Store (target s1) (Some df')).
Proof.
  intros H Hk. apply write_df_pk_ok in H as [old [_ ->]].
  unfold _write_df, add_pk_once. simpl.
  rewrite merge_noop; [reflexivity|].
  intros r Hr.
  assert (Hin : In (pk r) (map pk df)) by (rewrite <- Hk; now apply in_map).
  apply in_map_iff in Hin as [r0 [E0 H0]]. rewrite <- E0.
  now apply merge_covers.
Qed.

End MergeFacts.

(** ** create_bronze_hash *)

Lemma mapM_length {A B : Type} (f : A -> result B) (l : list A) (m : list B) :
  mapM f l = Ok m -> length m = length l.
Proof.
  revert m. induction l as [|a r IH]; intros m; simpl.
  - intros E. injection E as <-. reflexivity.
  - destruct (f a) as [b|e]; [|discriminate]. simpl.
    destruct (mapM f r) as [br|e]; [|discriminate]. simpl.
    intros E. injection E as <-. simpl. now rewrite (IH br).
Qed.

Section BronzeHash.

Variable upper_cp : N -> pystr.
Variable cfg_record_source : pystr.

Local Abbreviation with_columns := (with_columns upper_cp cfg_record_source).
Local Abbreviation create_bronze_hash :=
  (create_bronze_hash upper_cp cfg_record_source).

(** The two hashes of a row do not depend on the clock. *)
Lemma with_columns_clock (now1 now2 : Z) (r : raw_row) (h1 : hashed_row) :
  with_columns now1 r = Ok h1 ->
  exists h2, with_columns now2 r = Ok h2 /\ pk_hash h2 = pk_hash h1.
Proof.
  unfold with_columns.
  destruct (bk_hash_of upper_cp r) as [bk|]; [|discriminate].
  destruct (row_hash_of upper_cp r) as [rh|]; [|discriminate].
  simpl. intros E. injection E as <-. eexists. split; reflexivity.
Qed.

Lemma frame_clock (now1 now2 : Z) (rows : list raw_row) (df1 : list hashed_row) :
  mapM (with_columns now1) rows = Ok df1 ->
  exists df2, mapM (with_columns now2) rows = Ok df2
              /\ map pk_hash df2 = map pk_hash df1.
Proof.
  revert df1. induction rows as [|r rs IH]; intros df1; simpl.
  - intros E. injection E as <-. now exists [].
  - destruct (with_columns now1 r) as [h1|e] eqn:E1; [|discriminate].
    destruct (with_columns_clock now1 now2 r h1 E1) as [h2 [E2 Ek]].
    rewrite E2. simpl.
    destruct (mapM (with_columns now1) rs) as [d1|e]; [|discriminate].
    destruct (IH d1 eq_refl) as [d2 [Ed Em]]. rewrite Ed. simpl.
    intros E. injection E as <-. exists (h2 :: d2). split; [reflexivity|].
    simpl. now rewrite Ek, Em.
Qed.

(** The shape of a successful call: either the bronze table is empty and
    nothing happens, or the whole table is hashed and merged. *)
Lemma create_bronze_hash_ok (now : Z) (db db1 : pg) (n : nat) :
  create_bronze_hash now db = Ok (db1, n) ->
  exists t, target (tbl_bronze db) = Some t /\ n = length (t_rows t)
    /\ ((t_rows t = [] /\ db1 = db)
        \/ exists df s,
             t_rows t <> []
             /\ mapM (with_columns now) (t_rows t) = Ok df
             /\ _write_df pk_eq_dec df (Some pk_hash) (tbl_bhash db) = Ok s
             /\ db1 = Pg (tbl_bronze db) s).
Proof.
  unfold create_bronze_hash.
  destruct (target (tbl_bronze db)) as [t|] eqn:Et; [|discriminate].
  destruct (t_rows t) as [|r rs] eqn:Er.
  - intros E. injection E as <- <-. exists t. rewrite Er. repeat split.
    left. now split.
  - destruct (mapM _ _) as [df|e] eqn:Em; [|discriminate]. cbn [bind].
    destruct (_write_df pk_eq_dec df (Some pk_hash) (tbl_bhash db))
      as [s|e] eqn:Ew; [|discriminate]. cbn [bind].
    intros E. injection E as <- <-. exists t.
    rewrite (mapM_length _ _ _ Em), Er. repeat split.
    right. exists df, s. repeat split; try assumption. discriminate.
Qed.

(** The first run, on a schema without hashed table, succeeds as soon as
    every bronze row can be hashed. *)
Lemma create_bronze_hash_fresh (now : Z) (db : pg) (t : table raw_row)
    (df : list hashed_row) :
  target (tbl_bronze db) = Some t ->
  target (tbl_bhash db) = None ->
  mapM (with_columns now) (t_rows t) = Ok df ->
  exists db1, create_bronze_hash now db = Ok (db1, length (t_rows t)).
Proof.
  intros Et Eh Em. unfold create_bronze_hash. rewrite Et.
  destruct (t_rows t) as [|r rs] eqn:Er; [now exists db|].
  rewrite Em. unfold _write_df, add_pk_once. rewrite Eh. cbn.
  rewrite (mapM_length _ _ _ Em). eexists. reflexivity.
Qed.

(** A second run after a successful one succeeds, reports the same count
    and leaves the hashed table as it is. *)
Lemma create_bronze_hash_again (now1 now2 : Z) (db db1 : pg) (n1 : nat) :
  create_bronze_hash now1 db = Ok (db1, n1) ->
  exists db2,
    create_bronze_hash now2 db1 = Ok (db2, n1)
    /\ target (tbl_bhash db2) = target (tbl_bhash db1)
    /\ tbl_bronze db2 = tbl_bronze db.
Proof.
  intros H. pose proof H as H0.
  apply create_bronze_hash_ok in H
    as [t [Et [En [[Er ->] | [df [s [Er [Em [Ew ->]]]]]]]]].
  - exists db. unfold create_bronze_hash. rewrite Et, Er. subst n1.
    rewrite Er. repeat split.
  - destruct (frame_clock now1 now2 _ _ Em) as [df2 [Em2 Ek]].
    exists (Pg (tbl_bronze db) (Store (target s) (Some df2))).
    unfold create_bronze_hash. cbn [tbl_bronze tbl_bhash]. rewrite Et.
    destruct (t_rows t) as [|r rs] eqn:Ert; [congruence|].
    rewrite Em2. cbn [bind].
    rewrite (write_df_again pk_eq_dec pk_hash df df2 _ s Ew Ek). cbn [bind].
    rewrite (mapM_length _ _ _ Em2). subst n1. repeat split.
Qed.

(** C1.  Merging a batch of hashed records a second time leaves the hashed
    target table as it is: for [_write_df] on any batch, and for
    [create_bronze_hash], which after a successful run succeeds again on the
    same bronze rows (at any later time) without changing the rows of the
    hashed table, hence with the row count of the first merge. *)
Theorem C1_merge_idempotent :
  (forall (df : list hashed_row) (s s1 : store hashed_row),
     _write_df pk_eq_dec df (Some pk_hash) s = Ok s1 ->
     exists s2,
       _write_df pk_eq_dec df (Some pk_hash) s1 = Ok s2
       /\ target s2 = target s1 /\ row_count s2 = row_count s1)
  /\ (forall (now1 now2 : Z) (db db1 : pg) (n1 : nat),
        create_bronze_hash now1 db = Ok (db1, n1) ->
        exists db2 n2,
          create_bronze_hash now2 db1 = Ok (db2, n2)
          /\ target (tbl_bhash db2) = target (tbl_bhash db1)
          /\ row_count (tbl_bhash db2) = row_count (tbl_bhash db1)).
Proof.
  split.
  - intros df s s1 H. exists (Store (target s1) (Some df)).
    split; [|split; reflexivity].
    exact (write_df_again pk_eq_dec pk_hash df df s s1 H eq_refl).
  - intros now1 now2 db db1 n1 H.
    destruct (create_bronze_hash_again now1 now2 db db1 n1 H)
      as [db2 [E [Et _]]].
    exists db2, n1. repeat split; [exact E | exact Et|].
    unfold row_count. now rewrite Et.
Qed.

(** C5.  [create_bronze_hash] returns the number of rows read from the
    bronze table, and 0 without touching anything when that table is empty.
    This is not the number of rows inserted: the rows inserted are at most
    that many, and a second run returns the same number again while it
    inserts no row. *)
Theorem C5_returns_rows_read (now : Z) (db : pg) :
  (forall db1 n, create_bronze_hash now db = Ok (db1, n) ->
     (exists t, target (tbl_bronze db) = Some t /\ n = length (t_rows t))
     /\ (row_count (tbl_bhash db1) <= row_count (tbl_bhash db) + n)%nat
     /\ forall now', exists db2,
          create_bronze_hash now' db1 = Ok (db2, n)
          /\ row_count (tbl_bhash db2) = row_count (tbl_bhash db1))
  /\ (forall t, target (tbl_bronze db) = Some t -> t_rows t = [] ->
        create_bronze_hash now db = Ok (db, 0%nat)).
Proof.
  split.
  - intros db1 n H. split; [|split].
    + apply create_bronze_hash_ok in H as [t [Et [En _]]]. now exists t.
    + apply create_bronze_hash_ok in H
        as [t [Et [En [[Er ->] | [df [s [Er [Em [Ew ->]]]]]]]]]; [lia|].
      apply write_df_pk_ok in Ew as [old [Eo ->]].
      unfold row_count. simpl.
      pose proof (merge_length pk_eq_dec pk_hash df old) as Hl.
      rewrite (mapM_length _ _ _ Em) in Hl. rewrite <- En in Hl.
      destruct (target (tbl_bhash db)); subst old; simpl in *; lia.
    + intros now'.
      destruct (create_bronze_hash_again now now' db db1 n H) as [db2 [E [Et _]]].
      exists db2. split; [exact E|]. unfold row_count. now rewrite Et.
  - intros t Et Er. unfold create_bronze_hash. now rewrite Et, Er.
Qed.

End BronzeHash.

(** ** Examples *)

(** The digest of ["abc"], the test vector of FIPS 180-4:
    ba7816bf 8f01cfea 414140de 5dae2223 b00361a3 96177a9c b410ff61
    f20015ad. *)
Example sha256_abc :
  Sha256.hexdigest [97; 98; 99]
  = [98; 97; 55; 56; 49; 54; 98; 102; 56; 102; 48; 49; 99; 102; 101; 97;
     52; 49; 52; 49; 52; 48; 100; 101; 53; 100; 97; 101; 50; 50; 50; 51;
     98; 48; 48; 51; 54; 49; 97; 51; 57; 54; 49; 55; 55; 97; 57; 99;
     98; 52; 49; 48; 102; 102; 54; 49; 102; 50; 48; 48; 49; 53; 97; 100].
Proof. vm_compute. reflexivity. Qed.

(** The section sign takes two bytes, the euro sign three. *)
Example utf8_ex :
  Utf8.encode [0xA7; 65; 0x20AC] = Some [0xC2; 0xA7; 65; 0xE2; 0x82; 0xAC]
  /\ Utf8.encode [0xD800] = None.
Proof. split; reflexivity. Qed.

(** Case and space insensitivity (spec, section 8):
    [normalize(" John  Doe ") == normalize("JOHN DOE")]. *)
Example norm_john_doe :
  _norm upper_latin1 (VStr [32; 74; 111; 104; 110; 32; 32; 68; 111; 101; 32])
  = _norm upper_latin1 (VStr [74; 79; 72; 78; 32; 68; 79; 69]).
Proof. reflexivity. Qed.

(** [str] of integers. *)
Example int_str_ex :
  Py.int_str (-1203) = [45; 49; 50; 48; 51] /\ Py.int_str 0 = [48].
Proof. split; reflexivity. Qed.

(** The raw landing of the three example rows into the empty schema. *)
Example populate_db_ex : populate_db ex_bronze empty_pg = Ok (ex_db, 3%nat).
Proof. reflexivity. Qed.

(** C1, on the example schema: the first run merges three rows into two,
    the second run changes nothing. *)
Lemma C1_witness :
  exists db1 n1,
    create_bronze_hash upper_latin1 ex_source 1000 ex_db = Ok (db1, n1)
    /\ exists db2 n2,
         create_bronze_hash upper_latin1 ex_source 2000 db1 = Ok (db2, n2)
         /\ target (tbl_bhash db2) = target (tbl_bhash db1)
         /\ row_count (tbl_bhash db2) = row_count (tbl_bhash db1).
Proof.
  destruct (create_bronze_hash upper_latin1 ex_source 1000 ex_db)
    as [[db1 n1]|e] eqn:E.
  - exists db1, n1. split; [reflexivity|].
    exact (proj2 (C1_merge_idempotent upper_latin1 ex_source)
             1000%Z 2000%Z ex_db db1 n1 E).
  - vm_compute in E. discriminate.
Defined.

(** C5, on the example schema: three rows are read and 3 is returned, two
    rows are inserted. *)
Lemma C5_witness :
  exists db1 n,
    create_bronze_hash upper_latin1 ex_source 1000 ex_db = Ok (db1, n)
    /\ n = 3%nat /\ row_count (tbl_bhash db1) = 2%nat
    /\ exists db2,
         create_bronze_hash upper_latin1 ex_source 2000 db1 = Ok (db2, n)
         /\ row_count (tbl_bhash db2) = row_count (tbl_bhash db1).
Proof.
  destruct (create_bronze_hash upper_latin1 ex_source 1000 ex_db)
    as [[db1 n]|e] eqn:E.
  - exists db1, n. split; [reflexivity|].
    destruct (C5_returns_rows_read upper_latin1 ex_source 1000 ex_db)
      as [H _].
    destruct (H db1 n E) as [[t [Et En]] [_ Hagain]].
    split; [|split].
    + injection Et as <-. exact En.
    + vm_compute in E. injection E as <- _. reflexivity.
    + exact (Hagain 2000%Z).
  - vm_compute in E. discriminate.
Defined.

(** * Further properties *)

(** ** More on [strip] and the substitution *)

Lemma lstrip_app_blank (p x : pystr) :
  blank p = true -> Py.lstrip (p ++ x) = Py.lstrip x.
Proof.
  induction p as [|c p IH]; simpl; [reflexivity|].
  intros H. apply andb_true_iff in H as [Hc Hp]. now rewrite Hc, IH.
Qed.

(** A string is its stripped part between two runs of white space. *)
Lemma strip_decomp (s : pystr) :
  exists p q, s = p ++ Py.strip s ++ q /\ blank p = true /\ blank q = true.
Proof.
  destruct (lstrip_split s) as [p [E B]].
  destruct (lstrip_split (rev (Py.lstrip s))) as [q [Eq Bq]].
  exists p, (rev q). split; [|split; [exact B | now rewrite blank_rev]].
  unfold Py.strip, Py.rstrip. rewrite <- rev_app_distr, <- Eq, rev_involutive.
  exact E.
Qed.

Lemma strip_sandwich (p m q : pystr) :
  blank p = true -> blank q = true -> trimmed m ->
  Py.strip (p ++ m ++ q) = m.
Proof.
  intros Hp Hq [H1 H2]. unfold Py.strip, Py.rstrip.
  rewrite (lstrip_app_blank p _ Hp).
  destruct m as [|c m].
  - simpl. now rewrite (lstrip_blank q Hq).
  - rewrite (lstrip_id ((c :: m) ++ q))
      by (rewrite hd_ok_app; [exact H1 | discriminate]).
    rewrite rev_app_distr, lstrip_app_blank by now rewrite blank_rev.
    rewrite (lstrip_id _ H2). apply rev_involutive.
Qed.

Lemma strip_app_blank (p s q : pystr) :
  blank p = true -> blank q = true -> Py.strip (p ++ s ++ q) = Py.strip s.
Proof.
  intros Hp Hq. destruct (strip_decomp s) as [p' [q' [E [Hp' Hq']]]].
  rewrite E at 1.
  replace (p ++ (p' ++ Py.strip s ++ q') ++ q)
    with ((p ++ p') ++ Py.strip s ++ (q' ++ q))
    by (now rewrite <- !app_assoc).
  apply strip_sandwich; [| | apply strip_trimmed];
    rewrite blank_app; apply andb_true_iff; now split.
Qed.

Lemma ws_sub_blank (b : bool) (p : pystr) :
  blank p = true -> blank (Py.ws_sub b p) = true.
Proof.
  revert b. induction p as [|c p IH]; intros b; simpl; [reflexivity|].
  intros H. apply andb_true_iff in H as [Hc Hp]. rewrite Hc.
  destruct b; simpl; now rewrite ?IH.
Qed.

Lemma ws_sub_app_blank (b : bool) (p x : pystr) :
  blank p = true -> hd_ok x = true ->
  exists p', blank p' = true /\ Py.ws_sub b (p ++ x) = p' ++ Py.ws_sub false x.
Proof.
  revert b. induction p as [|c p IH]; intros b Hp Hx.
  - exists []. split; [reflexivity|]. simpl.
    destruct x as [|d x]; [reflexivity|]. simpl in *.
    apply negb_true_iff in Hx. now rewrite Hx.
  - simpl in Hp. apply andb_true_iff in Hp as [Hc Hp].
    destruct (IH true Hp Hx) as [p' [Hp' E]]. simpl. rewrite Hc.
    destruct b.
    + exists p'. now split.
    + exists (32 :: p'). split; [exact Hp' | now rewrite E].
Qed.

Lemma ws_sub_app_end (b : bool) (m q : pystr) :
  m <> [] -> hd_ok (rev m) = true ->
  Py.ws_sub b (m ++ q) = Py.ws_sub b m ++ Py.ws_sub false q.
Proof.
  revert b. induction m as [|c m IH]; intros b Hn Hl; [congruence|].
  destruct m as [|d m].
  - simpl in *. apply negb_true_iff in Hl. now rewrite Hl.
  - assert (Hl' : hd_ok (rev (d :: m)) = true).
    { simpl in Hl. rewrite hd_ok_app in Hl; [exact Hl|].
      simpl. now destruct (rev m). }
    change ((c :: d :: m) ++ q) with (c :: ((d :: m) ++ q)).
    cbn [Py.ws_sub].
    destruct (Py.is_space c); [destruct b|];
      rewrite IH by (discriminate || exact Hl'); reflexivity.
Qed.

(** Stripping and collapsing commute. *)
Lemma strip_ws_sub (s : pystr) :
  Py.strip (Py.ws_sub false s) = Py.ws_sub false (Py.strip s).
Proof.
  destruct (strip_decomp s) as [p [q [E [Hp Hq]]]].
  pose proof (strip_trimmed s) as Ht.
  destruct (Py.strip s) as [|c m] eqn:Em.
  - rewrite E. simpl. apply strip_blank, ws_sub_blank.
    rewrite blank_app. now rewrite Hp, Hq.
  - rewrite E at 1.
    assert (Hx : hd_ok ((c :: m) ++ q) = true).
    { rewrite hd_ok_app; [apply Ht | discriminate]. }
    destruct (ws_sub_app_blank false p _ Hp Hx) as [p' [Hp' ->]].
    rewrite ws_sub_app_end by (discriminate || apply Ht).
    apply strip_sandwich; [exact Hp' | now apply ws_sub_blank|].
    now apply ws_sub_trimmed.
Qed.

Lemma single_spaced_ws_sub (b : bool) (s : pystr) :
  single_spaced b (Py.ws_sub b s) = true.
Proof.
  revert b. induction s as [|c r IH]; intros b; simpl; [reflexivity|].
  destruct (Py.is_space c) eqn:Hc.
  - destruct b; [apply IH|]. simpl. apply IH.
  - simpl. rewrite Hc. apply IH.
Qed.

(** A string without white space is left as it is by the substitution. *)
Lemma ws_sub_no_space (s : pystr) :
  (forall c, In c (Py.ws_sub false s) -> Py.is_space c = false) ->
  Py.ws_sub false s = s.
Proof.
  induction s as [|c r IH]; simpl; [reflexivity|].
  destruct (Py.is_space c) eqn:Hc.
  - intros H. specialize (H 32 (or_introl eq_refl)). discriminate.
  - intros H. f_equal. apply IH. intros d Hd. apply H. now right.
Qed.

(** ** The normaliser: canonical form and what it is insensitive to *)

Lemma nospace_trimmed (s : pystr) :
  (forall c, In c s -> Py.is_space c = false) -> trimmed s.
Proof.
  intros H. split.
  - destruct s as [|c r]; [reflexivity|]. simpl.
    now rewrite (H c (or_introl eq_refl)).
  - destruct (rev s) as [|c r] eqn:E; [reflexivity|]. simpl.
    rewrite (H c); [reflexivity|]. apply in_rev. rewrite E. now left.
Qed.

Lemma ws_sub_nospace_id (s : pystr) :
  (forall c, In c s -> Py.is_space c = false) -> Py.ws_sub false s = s.
Proof.
  induction s as [|c r IH]; intros H; simpl; [reflexivity|].
  rewrite (H c (or_introl eq_refl)). f_equal. apply IH.
  intros d Hd. apply H. now right.
Qed.

Lemma uint_str_digits (u : Decimal.uint) (c : N) :
  In c (Py.uint_str u) -> 48 <= c <= 57.
Proof.
  induction u; simpl; try tauto; unfold Py.digit_cp;
    (intros [<-|H]; [lia | now apply IHu]).
Qed.

Lemma uint_str_inj (u1 u2 : Decimal.uint) :
  Py.uint_str u1 = Py.uint_str u2 -> u1 = u2.
Proof.
  revert u2. induction u1; intros [] E; try reflexivity;
    cbn [Py.uint_str] in E; try discriminate E;
    apply cons_inj in E as [Ec Er]; vm_compute in Ec; try discriminate Ec;
    f_equal; now apply IHu1.
Qed.

Lemma int_str_chars (z : Z) (c : N) :
  In c (Py.int_str z) -> c = 45 \/ 48 <= c <= 57.
Proof.
  unfold Py.int_str. destruct (Z.to_int z); simpl.
  - intros H. right. now apply uint_str_digits in H.
  - intros [<-|H]; [now left|]. right. now apply uint_str_digits in H.
Qed.

Lemma int_str_not_nil (z : Z) : Py.int_str z <> [].
Proof.
  unfold Py.int_str, Z.to_int.
  destruct z as [|p|p]; [discriminate| |discriminate].
  pose proof (DecimalPos.Unsigned.to_uint_nonnil p) as H.
  destruct (Pos.to_uint p); [congruence | discriminate ..].
Qed.

Lemma int_str_inj (a b : Z) : Py.int_str a = Py.int_str b -> a = b.
Proof.
  intros E. rewrite <- (DecimalZ.of_to a), <- (DecimalZ.of_to b). f_equal.
  unfold Py.int_str in E.
  destruct (Z.to_int a) as [u1|u1], (Z.to_int b) as [u2|u2].
  - f_equal. now apply uint_str_inj.
  - exfalso. assert (H : In 45 (Py.uint_str u1)) by (rewrite E; now left).
    apply uint_str_digits in H. lia.
  - exfalso. assert (H : In 45 (Py.uint_str u2)) by (rewrite <- E; now left).
    apply uint_str_digits in H. lia.
  - apply cons_inj in E as [_ E]. f_equal. now apply uint_str_inj.
Qed.

Lemma int_str_nospace (z : Z) (c : N) :
  In c (Py.int_str z) -> Py.is_space c = false.
Proof.
  intros H. apply int_str_chars in H. apply is_space_false_spec. lia.
Qed.

Section NormMore.

Variable upper_cp : N -> pystr.

Local Abbreviation upper := (upper upper_cp).
Local Abbreviation _norm := (_norm upper_cp).

(** X1.  White space around a string does not count: a string and the same
    string between two runs of white space have the same token. *)
Theorem X1_norm_surrounding_space (p s q : pystr) :
  blank p = true -> blank q = true ->
  _norm (VStr (p ++ s ++ q)) = _norm (VStr s).
Proof.
  intros Hp Hq. rewrite !norm_unfold by discriminate.
  cbn [Py.str]. now rewrite strip_app_blank.
Qed.

(** An integer and the string of its decimal digits have the same token. *)
Lemma norm_int_as_string (z : Z) :
  _norm (VInt z) = _norm (VStr (Py.int_str z)).
Proof. now rewrite !norm_unfold by discriminate. Qed.

(** White space has no case. *)
Hypothesis upper_space :
  forall c, Py.is_space c = true -> upper_cp c = [c].

(** No character becomes empty or white space. *)
Hypothesis upper_nonspace :
  forall c, Py.is_space c = false ->
    upper_cp c <> [] /\ forallb (fun d => negb (Py.is_space d)) (upper_cp c) = true.

Lemma upper_blank (p : pystr) : blank p = true -> upper p = p.
Proof.
  induction p as [|c p IH]; [reflexivity|]. simpl. intros H.
  apply andb_true_iff in H as [Hc Hp].
  change (upper (c :: p)) with (upper_cp c ++ upper p).
  now rewrite (upper_space c Hc), IH.
Qed.

(** Stripping and upper-casing commute. *)
Lemma strip_upper (s : pystr) : Py.strip (upper s) = upper (Py.strip s).
Proof.
  destruct (strip_decomp s) as [p [q [E [Hp Hq]]]].
  rewrite E at 1. rewrite !upper_app, (upper_blank p Hp), (upper_blank q Hq).
  apply strip_sandwich; [exact Hp | exact Hq|].
  apply (upper_trimmed upper_cp upper_nonspace), strip_trimmed.
Qed.

(** The token of a string, from the string with its white space collapsed. *)
Lemma norm_via_ws_sub (s : pystr) :
  _norm (VStr s)
  = match upper (Py.strip (_WS_RE_sub s)) with
    | [] => _NULL
    | c :: r => c :: r
    end.
Proof.
  rewrite norm_unfold by discriminate. cbn [Py.str]. cbv zeta.
  unfold _WS_RE_sub.
  rewrite (ws_sub_upper upper_cp upper_space upper_nonspace), <- strip_ws_sub.
  now destruct (upper _).
Qed.

(** X2.  The kind and the number of white space characters between words do
    not count: two strings that the substitution of [\s+] by one space makes
    equal have the same token. *)
Theorem X2_norm_space_runs (s1 s2 : pystr) :
  _WS_RE_sub s1 = _WS_RE_sub s2 -> _norm (VStr s1) = _norm (VStr s2).
Proof. intros E. now rewrite !norm_via_ws_sub, E. Qed.

(** X3.  Every token is in canonical form: it is not empty, it neither
    starts nor ends with white space, its only white space is the space and
    no two spaces are adjacent. *)
Theorem X3_norm_canonical (v : value) :
  _norm v <> [] /\ trimmed (_norm v) /\ single_spaced false (_norm v) = true.
Proof.
  split; [apply norm_not_nil|].
  destruct (norm_cases upper_cp v) as [E | [x [Hx [E _]]]]; rewrite E.
  - split; [split|]; reflexivity.
  - split.
    + apply ws_sub_trimmed, (upper_trimmed upper_cp upper_nonspace), Hx.
    + apply single_spaced_ws_sub.
Qed.

(** X4.  The inputs whose token is the sentinel are exactly: null, the
    strings of white space only (the empty one among them), and the inputs
    that trimmed and upper-cased are the text of the sentinel itself. *)
Theorem X4_norm_sentinel_iff (v : value) :
  _norm v = _NULL
  <-> v = VNone \/ blank (Py.str v) = true
      \/ upper (Py.strip (Py.str v)) = _NULL.
Proof.
  split.
  - intros E. destruct v as [|s|z]; [now left| |]; right;
      (destruct (blank (Py.str _)) eqn:Hb; [now left|]); right;
      rewrite (norm_nonblank upper_cp upper_nonspace) in E
        by first [discriminate | exact Hb];
      unfold _WS_RE_sub in E; rewrite <- E; symmetry;
      apply ws_sub_no_space; rewrite E; intros c Hc;
      apply is_space_false_spec; unfold _NULL in Hc; simpl in Hc; lia.
  - intros [->|[Hb|E]]; [reflexivity | now apply norm_blank|].
    destruct v as [|s|z]; [reflexivity| |];
      rewrite norm_unfold by discriminate; now rewrite E.
Qed.

(** Upper-casing an upper-cased character changes nothing. *)
Hypothesis upper_idem : forall c, upper (upper_cp c) = upper_cp c.

(** X5.  Case does not count: a string and its upper-cased form have the
    same token. *)
Theorem X5_norm_case (s : pystr) : _norm (VStr (upper s)) = _norm (VStr s).
Proof.
  rewrite !norm_unfold by discriminate. cbn [Py.str].
  now rewrite strip_upper, (upper_upper upper_cp upper_idem).
Qed.

End NormMore.

Section NormInt.

Variable upper_cp : N -> pystr.

Local Abbreviation upper := (upper upper_cp).
Local Abbreviation _norm := (_norm upper_cp).

(** The decimal digits and the minus sign have no case. *)
Hypothesis upper_digits :
  forall c, c = 45 \/ 48 <= c <= 57 -> upper_cp c = [c].

Lemma upper_int_str (z : Z) : upper (Py.int_str z) = Py.int_str z.
Proof.
  assert (H : forall s, (forall c, In c s -> c = 45 \/ 48 <= c <= 57) ->
                upper s = s).
  { induction s as [|c r IH]; intros H; [reflexivity|].
    change (upper (c :: r)) with (upper_cp c ++ upper r).
    rewrite (upper_digits c) by (apply H; now left).
    rewrite IH; [reflexivity|]. intros d Hd. apply H. now right. }
  apply H, int_str_chars.
Qed.

(** X6.  The token of an integer is its decimal representation, so that
    different integers have different tokens and no integer has the token
    of null; it is also the token of the string of its digits. *)
Theorem X6_norm_int (z : Z) :
  _norm (VInt z) = Py.int_str z
  /\ (forall z', _norm (VInt z) = _norm (VInt z') -> z = z')
  /\ _norm (VInt z) <> _NULL
  /\ _norm (VInt z) = _norm (VStr (Py.int_str z)).
Proof.
  assert (E : forall a, _norm (VInt a) = Py.int_str a).
  { intros a. rewrite norm_unfold by discriminate. cbn [Py.str]. cbv zeta.
    rewrite (trimmed_strip _ (nospace_trimmed _ (int_str_nospace a))).
    rewrite upper_int_str. unfold _WS_RE_sub.
    rewrite (ws_sub_nospace_id _ (int_str_nospace a)).
    pose proof (int_str_not_nil a). now destruct (Py.int_str a). }
  split; [apply E|]. split.
  - intros z' H. rewrite !E in H. now apply int_str_inj.
  - split; [|apply (norm_int_as_string upper_cp)].
    rewrite E. intros H.
    assert (Hin : In 0xA7 (Py.int_str z)) by (rewrite H; now left).
    apply int_str_chars in Hin. lia.
Qed.

End NormInt.

(** ** The hash engine: failure, format, collisions *)

Lemma encode_cp_none_iff (c : N) :
  Utf8.encode_cp c = None <-> unencodable c.
Proof.
  unfold Utf8.encode_cp, unencodable.
  destruct (N.ltb_spec c 0x80); [split; [discriminate | lia]|].
  destruct (N.ltb_spec c 0x800); [split; [discriminate | lia]|].
  destruct (N.ltb_spec c 0x10000).
  - destruct (N.leb_spec 0xD800 c), (N.leb_spec c 0xDFFF); simpl;
      split; try discriminate; try lia; intros _; try reflexivity; lia.
  - destruct (N.ltb_spec c 0x110000); split; try discriminate; try lia.
    reflexivity.
Qed.

Lemma encode_none_iff (s : pystr) :
  Utf8.encode s = None <-> exists c, In c s /\ unencodable c.
Proof.
  induction s as [|c r IH]; simpl.
  - split; [discriminate | intros [c [[] _]]].
  - destruct (Utf8.encode_cp c) as [b|] eqn:Ec.
    + destruct (Utf8.encode r) as [br|].
      * split; [discriminate|]. intros [d [[<-|Hd] Hu]].
        -- apply encode_cp_none_iff in Hu. congruence.
        -- assert (H : @None (list N) = None) by reflexivity.
           enough (Some br = None) by discriminate.
           apply IH. now exists d.
      * split; [|reflexivity]. intros _.
        destruct (proj1 IH eq_refl) as [d [Hd Hu]]. exists d. split; [now right | exact Hu].
    + split; [|reflexivity]. intros _. exists c. split; [now left|].
      now apply encode_cp_none_iff.
Qed.

Lemma encode_bytes (s : pystr) (b : list N) :
  Utf8.encode s = Some b -> Forall (fun x => x < 256) b.
Proof.
  revert b. induction s as [|c r IH]; intros b; simpl.
  - intros E. injection E as <-. constructor.
  - destruct (Utf8.encode_cp c) as [bc|] eqn:Ec; [|discriminate].
    destruct (Utf8.encode r) as [br|]; [|discriminate].
    intros E. injection E as <-. apply Forall_app. split; [|now apply IH].
    apply encode_cp_shape in Ec
      as (q1 & s1 & q2 & s2 & q3 & s3 & ? & ? & ? & ? & ? & ? & S1).
    destruct S1 as [[? ->]|[[? ->]|[[? ->]|[? ->]]]];
      repeat constructor; lia.
Qed.

(** *** The shape of a digest *)

Lemma compress_length (h block : list N) :
  length h = 8%nat -> length (Sha256.compress h block) = 8%nat.
Proof.
  intros H. unfold Sha256.compress.
  rewrite length_map, length_combine, H. reflexivity.
Qed.

Lemma blocks_length (n : nat) (h b : list N) :
  length h = 8%nat -> length (Sha256.blocks n h b) = 8%nat.
Proof.
  revert h b. induction n as [|n IH]; intros h b H; simpl; [exact H|].
  destruct b; [exact H|]. apply IH. now apply compress_length.
Qed.

Lemma be_bytes_spec (n : nat) (x : N) :
  length (Sha256.be_bytes n x) = n
  /\ Forall (fun b => b < 256) (Sha256.be_bytes n x).
Proof.
  induction n as [|n [IH1 IH2]]; simpl; [split; [reflexivity | constructor]|].
  split; [now rewrite IH1|]. constructor; [|exact IH2].
  change 0xFF with (N.ones 8). rewrite N.land_ones.
  apply N.mod_lt. discriminate.
Qed.

Lemma digest_spec (msg : list N) :
  length (Sha256.digest msg) = 32%nat
  /\ Forall (fun b => b < 256) (Sha256.digest msg).
Proof.
  unfold Sha256.digest.
  pose proof (blocks_length (length (Sha256.pad msg)) Sha256.H0
                (Sha256.pad msg) eq_refl) as H.
  destruct (Sha256.blocks _ _ _) as [|a [|b [|c [|d [|e [|f [|g [|h [|]]]]]]]]];
    try discriminate.
  cbn [flat_map]. rewrite app_nil_r. split.
  - rewrite !length_app.
    now rewrite !(proj1 (be_bytes_spec 4 _)).
  - repeat (apply Forall_app; split); apply be_bytes_spec.
Qed.

Lemma hex_cp_lower (d : N) : d < 16 -> is_lower_hex (Sha256.hex_cp d) = true.
Proof.
  intros H. unfold is_lower_hex, Sha256.hex_cp.
  destruct (N.ltb_spec d 10);
    apply orb_true_iff; [left | right]; apply andb_true_iff;
    split; apply N.leb_le; lia.
Qed.

Lemma hexdigest_spec (msg : list N) :
  length (Sha256.hexdigest msg) = 64%nat
  /\ forallb is_lower_hex (Sha256.hexdigest msg) = true.
Proof.
  unfold Sha256.hexdigest. destruct (digest_spec msg) as [Hl Hb].
  revert Hl Hb. generalize (Sha256.digest msg) as d. intros d.
  assert (G : forall l : list N, Forall (fun b => b < 256) l ->
    length (flat_map (fun b => [Sha256.hex_cp (b / 16); Sha256.hex_cp (b mod 16)]) l)
    = (2 * length l)%nat
    /\ forallb is_lower_hex
         (flat_map (fun b => [Sha256.hex_cp (b / 16); Sha256.hex_cp (b mod 16)]) l)
       = true).
  { induction 1 as [|b l Hb Hl [IH1 IH2]]; [split; reflexivity|].
    cbn [flat_map app length forallb]. split; [rewrite IH1; lia|].
    rewrite IH2, !hex_cp_lower; [reflexivity | |].
    - apply N.mod_lt. discriminate.
    - apply N.Div0.div_lt_upper_bound. exact Hb. }
  intros Hl Hb. destruct (G d Hb) as [G1 G2]. split; [rewrite G1; lia | exact G2].
Qed.

Lemma In_lstrip_keep (c : N) (s : pystr) :
  Py.is_space c = false -> In c s -> In c (Py.lstrip s).
Proof.
  intros Hc. induction s as [|d r IH]; simpl; [tauto|].
  destruct (Py.is_space d) eqn:Hd; [|simpl; tauto].
  intros [->|H]; [congruence | now apply IH].
Qed.

(** [strip] removes white space only. *)
Lemma In_strip_keep (c : N) (s : pystr) :
  Py.is_space c = false -> In c s -> In c (Py.strip s).
Proof.
  intros Hc H. unfold Py.strip, Py.rstrip.
  apply in_rev. rewrite rev_involutive.
  apply In_lstrip_keep; [exact Hc|]. apply -> in_rev.
  now apply In_lstrip_keep.
Qed.

Lemma In_ws_sub_keep (c : N) (b : bool) (s : pystr) :
  Py.is_space c = false -> In c s -> In c (Py.ws_sub b s).
Proof.
  intros Hc. revert b. induction s as [|d r IH]; intros b; simpl; [tauto|].
  destruct (Py.is_space d) eqn:Hd.
  - intros [->|H]; [congruence|].
    destruct b; [now apply IH|]. right. now apply IH.
  - intros [->|H]; [now left|]. right. now apply IH.
Qed.

Lemma In_join (c : N) (l : list pystr) :
  c <> SEP -> (In c (Py.join [SEP] l) <-> exists t, In t l /\ In c t).
Proof.
  intros Hc. induction l as [|x r IH].
  - simpl. split; [tauto | intros [t [[] _]]].
  - rewrite join_cons, in_app_iff. split.
    + intros [H|H]; [exists x; split; [now left | exact H]|].
      destruct r as [|y r]; [destruct H|].
      destruct H as [H|H]; [congruence|].
      apply IH in H as [t [Ht Hin]]. exists t. split; [now right | exact Hin].
    + intros [t [[<-|Ht] Hin]]; [now left|]. right.
      destruct r as [|y r]; [destruct Ht|]. right. apply IH. now exists t.
Qed.

Lemma unencodable_not_space (c : N) : unencodable c -> Py.is_space c = false.
Proof. unfold unencodable. intros H. apply is_space_false_spec. lia. Qed.

Section HashMore.

Variable upper_cp : N -> pystr.

Local Abbreviation upper := (upper upper_cp).
Local Abbreviation _norm := (_norm upper_cp).
Local Abbreviation joined := (joined upper_cp).
Local Abbreviation dv2_hash := (dv2_hash upper_cp).

(** X7.  A digest is a string of 64 lower-case hexadecimal digits. *)
Theorem X7_dv2_hash_shape (cols : list value) (h : pystr) :
  dv2_hash cols = Some h ->
  length h = 64%nat /\ forallb is_lower_hex h = true.
Proof.
  unfold dv2_hash. destruct (Utf8.encode _) as [b|]; [|discriminate].
  simpl. intros E. injection E as <-. apply hexdigest_spec.
Qed.

(** [dv2_hash] raises when the joined string has a code point that cannot
    be encoded, and only then. *)
Lemma dv2_hash_none_iff (cols : list value) :
  dv2_hash cols = None <-> exists c, In c (joined cols) /\ unencodable c.
Proof.
  unfold dv2_hash. rewrite <- encode_none_iff.
  destruct (Utf8.encode _); simpl; split; congruence.
Qed.

(** Surrogates have no case, and no character becomes one. *)
Hypothesis upper_unenc_fix :
  forall c, unencodable c -> upper_cp c = [c].
Hypothesis upper_unenc_only :
  forall c x, unencodable x -> In x (upper_cp c) -> c = x.

Lemma In_norm_unencodable (c : N) (v : value) :
  unencodable c -> (In c (_norm v) <-> In c (Py.str v)).
Proof.
  intros Hu. pose proof (unencodable_not_space c Hu) as Hs. split.
  - intros H. apply In_norm in H as [H|H];
      [ | exact H | unfold unencodable in Hu; lia
        | intros d; apply upper_unenc_only, Hu ].
    unfold _NULL, unencodable in *. simpl in H. lia.
  - intros H. destruct v as [|s|z].
    + unfold unencodable in Hu. simpl in H. lia.
    + rewrite norm_unfold by discriminate. cbv zeta.
      assert (G : In c (_WS_RE_sub (upper (Py.strip (Py.str (VStr s)))))).
      { apply In_ws_sub_keep; [exact Hs|]. apply in_flat_map.
        exists c. split; [now apply In_strip_keep|].
        rewrite (upper_unenc_fix c Hu). now left. }
      destruct (_WS_RE_sub _); [destruct G | exact G].
    + apply int_str_chars in H. unfold unencodable in Hu. lia.
Qed.

(** X8.  On values that [str] converts (null, strings, and integers of at
    most 4300 digits; on a longer integer [str] itself raises),  [dv2_hash]
    raises [UnicodeEncodeError] exactly when one of the values holds a code
    point that UTF-8 cannot encode (a lone surrogate); on all other such
    inputs it returns a digest. *)
Theorem X8_dv2_hash_raises_iff (cols : list value) :
  (forall v, In v cols -> str_defined v) ->
  (dv2_hash cols = None
   <-> exists v c, In v cols /\ In c (Py.str v) /\ unencodable c).
Proof.
  intros _. rewrite dv2_hash_none_iff. split.
  - intros [c [Hc Hu]]. unfold joined in Hc.
    apply In_join in Hc as [t [Ht Hin]];
      [|unfold unencodable, SEP in *; lia].
    apply in_map_iff in Ht as [v [<- Hv]]. exists v, c.
    split; [exact Hv|]. split; [|exact Hu]. now apply In_norm_unencodable.
  - intros [v [c [Hv [Hc Hu]]]]. exists c. split; [|exact Hu].
    unfold joined. apply In_join; [unfold unencodable, SEP in *; lia|].
    exists (_norm v). split; [now apply in_map|].
    now apply In_norm_unencodable.
Qed.

End HashMore.

Section HashCollisions.

Variable upper_cp : N -> pystr.

Local Abbreviation _norm := (_norm upper_cp).
Local Abbreviation joined := (joined upper_cp).
Local Abbreviation dv2_hash := (dv2_hash upper_cp).

(** The upper-case table maps nothing else to the separator. *)
Hypothesis upper_sep : forall c, In SEP (upper_cp c) -> c = SEP.

(** X9.  On values without the separator, two sequences with the same
    digest have the same tokens, column by column and in number, unless
    SHA-256 gives that digest to two different byte strings, the UTF-8
    encodings of the strings the two sequences are joined to: nothing before
    the hash function loses information about the tokens or their order. *)
Theorem X9_dv2_hash_same_digest (cols1 cols2 : list value) (h : pystr) :
  (forall v, In v cols1 \/ In v cols2 -> ~ In SEP (Py.str v)) ->
  dv2_hash cols1 = Some h -> dv2_hash cols2 = Some h ->
  map _norm cols1 = map _norm cols2
  \/ exists b1 b2,
       Utf8.encode (joined cols1) = Some b1
       /\ Utf8.encode (joined cols2) = Some b2
       /\ b1 <> b2
       /\ Sha256.hexdigest b1 = h /\ Sha256.hexdigest b2 = h.
Proof.
  intros Hfree H1 H2.
  destruct (list_eq_dec (list_eq_dec N.eq_dec)
              (map _norm cols1) (map _norm cols2)) as [E|Hne];
    [now left | right].
  apply (dv2_hash_collision_on upper_cp cols1 cols2 h);
    [|exact H1 | exact H2].
  intros E. apply Hne.
  apply join_inj; [| | exact E]; apply Forall_forall; intros t Ht;
    apply in_map_iff in Ht as [v [<- Hv]];
    (split; [apply norm_not_nil
            | apply (norm_sep_free upper_cp upper_sep), Hfree; tauto]).
Qed.

End HashCollisions.

(** X10.  UTF-8 encoding loses nothing: two strings with the same encoding
    are the same string, and the encoding is a sequence of bytes. *)
Theorem X10_utf8_injective :
  (forall s1 s2 b,
     Utf8.encode s1 = Some b -> Utf8.encode s2 = Some b -> s1 = s2)
  /\ (forall s b, Utf8.encode s = Some b -> Forall (fun x => x < 256) b).
Proof. split; [exact encode_inj | exact encode_bytes]. Qed.

(** ** The merge: first writer wins *)

Section MergeMore.

Context {row key : Type}.
Variable key_eq_dec : forall a b : key, {a = b} + {a <> b}.
Variable pk : row -> key.

Local Abbreviation has_key := (has_key key_eq_dec pk).
Local Abbreviation unique_keys := (unique_keys key_eq_dec pk).
Local Abbreviation merge := (insert_on_conflict_do_nothing key_eq_dec pk).

Lemma has_key_In (k : key) (l : list row) :
  has_key k l = true <-> In k (map pk l).
Proof.
  unfold has_key. rewrite existsb_exists, in_map_iff. split.
  - intros [r [Hr E]]. exists r. split; [|exact Hr].
    now destruct (key_eq_dec (pk r) k).
  - intros [r [E Hr]]. exists r. split; [exact Hr|].
    now destruct (key_eq_dec (pk r) k).
Qed.

Lemma has_key_not_In (k : key) (l : list row) :
  has_key k l = false <-> ~ In k (map pk l).
Proof.
  rewrite <- has_key_In. now destruct (has_key k l).
Qed.

Lemma unique_keys_NoDup (l : list row) :
  unique_keys l = true <-> NoDup (map pk l).
Proof.
  induction l as [|r l IH]; simpl.
  - split; [constructor | reflexivity].
  - rewrite andb_true_iff, negb_true_iff, has_key_not_In, IH, NoDup_cons_iff.
    reflexivity.
Qed.

(** The merge only appends: the rows of the target stay, in place, and the
    rows added come from the batch, with keys that are new and different
    from one another. *)
Lemma merge_appends (temp tgt : list row) :
  exists added,
    merge tgt temp = tgt ++ added
    /\ (forall r, In r added -> In r temp /\ has_key (pk r) tgt = false)
    /\ NoDup (map pk added).
Proof.
  revert tgt. induction temp as [|r rs IH]; intros tgt.
  - exists []. simpl. rewrite app_nil_r.
    split; [reflexivity|]. split; [intros r []|constructor].
  - simpl. destruct (has_key (pk r) tgt) eqn:Hk.
    + destruct (IH tgt) as [added [E [Hin Hnd]]]. exists added.
      split; [exact E|]. split; [|exact Hnd].
      intros x Hx. destruct (Hin x Hx). split; [now right | assumption].
    + destruct (IH (tgt ++ [r])) as [added [E [Hin Hnd]]].
      exists (r :: added). split; [now rewrite E, <- app_assoc|].
      assert (Hsplit : forall x, In x added ->
                has_key (pk x) tgt = false /\ pk r <> pk x).
      { intros x Hx. destruct (Hin x Hx) as [_ Hf].
        rewrite has_key_app in Hf. apply orb_false_iff in Hf as [Hf1 Hf2].
        split; [exact Hf1|]. simpl in Hf2.
        now destruct (key_eq_dec (pk r) (pk x)). }
      split.
      * intros x [<-|Hx]; [split; [now left | exact Hk]|].
        destruct (Hin x Hx). split; [now right | now apply Hsplit].
      * simpl. constructor; [|exact Hnd]. intros Hr.
        apply in_map_iff in Hr as [x [Ex Hx]].
        destruct (Hsplit x Hx) as [_ Hne]. congruence.
Qed.

(** The rows that the merge adds are the first writers: the rows of the
    batch whose key is neither in the target nor the key of a row that comes
    before in the batch. *)
Lemma merge_first_rows (temp tgt : list row) :
  exists added,
    merge tgt temp = tgt ++ added
    /\ unique_keys added = true
    /\ forall r, In r added <->
         exists pre post,
           temp = pre ++ r :: post
           /\ has_key (pk r) tgt = false /\ has_key (pk r) pre = false.
Proof.
  revert tgt. induction temp as [|x rs IH]; intros tgt.
  - exists []. simpl. rewrite app_nil_r.
    split; [reflexivity|]. split; [reflexivity|].
    intros r. split; [intros []|].
    intros [pre [post [E _]]]. destruct pre; discriminate.
  - simpl. destruct (has_key (pk x) tgt) eqn:Hk.
    + destruct (IH tgt) as [added [E [Hu Hin]]]. exists added.
      split; [exact E|]. split; [exact Hu|].
      intros r. rewrite Hin. split.
      * intros [pre [post [-> [Ht Hp]]]]. exists (x :: pre), post.
        split; [reflexivity|]. split; [exact Ht|]. simpl.
        destruct (key_eq_dec (pk x) (pk r)) as [Ex|_]; [|exact Hp].
        rewrite Ex in Hk. congruence.
      * intros [pre [post [E' [Ht Hp]]]].
        destruct pre as [|y pre]; simpl in E'; injection E' as E1 E2.
        -- subst x. congruence.
        -- subst y rs. exists pre, post. split; [reflexivity|].
           split; [exact Ht|]. simpl in Hp.
           now apply orb_false_iff in Hp as [_ Hp].
    + destruct (IH (tgt ++ [x])) as [added [E [Hu Hin]]].
      exists (x :: added). split; [now rewrite E, <- app_assoc|].
      split.
      * simpl. rewrite Hu, andb_true_r. apply negb_true_iff.
        destruct (has_key (pk x) added) eqn:Hx; [|reflexivity].
        apply has_key_In, in_map_iff in Hx as [r [Er Hr]].
        apply Hin in Hr as [pre [post [_ [Ht _]]]].
        rewrite has_key_app in Ht. apply orb_false_iff in Ht as [_ Ht].
        simpl in Ht. rewrite Er in Ht.
        now destruct (key_eq_dec (pk x) (pk x)).
      * intros r. split.
        -- intros [<-|Hr].
           ++ exists [], rs. split; [reflexivity|].
              split; [exact Hk | reflexivity].
           ++ apply Hin in Hr as [pre [post [-> [Ht Hp]]]].
              rewrite has_key_app in Ht.
              apply orb_false_iff in Ht as [Ht Hx].
              exists (x :: pre), post. split; [reflexivity|].
              split; [exact Ht|]. simpl in *.
              rewrite orb_false_r in Hx. now rewrite Hx.
        -- intros [pre [post [E' [Ht Hp]]]].
           destruct pre as [|y pre]; simpl in E'; injection E' as E1 E2.
           ++ now left.
           ++ subst y rs. right. apply Hin. exists pre, post.
              split; [reflexivity|]. simpl in Hp.
              apply orb_false_iff in Hp as [Hx Hp]. split; [|exact Hp].
              rewrite has_key_app, Ht. simpl. now rewrite Hx.
Qed.

(** X11.  First writer wins.  The merge leaves every row of the target as
    it is and where it is, and what it adds has no two rows with one key.
    A row is added exactly when it stands in the batch with a key that is
    neither in the target nor the key of a row that comes before it in the
    batch: of the rows of the batch with one new key the first is added, the
    others and the rows whose key the target has are left out. *)
Theorem X11_merge_first_writer_wins (tgt temp : list row) :
  exists added,
    insert_on_conflict_do_nothing key_eq_dec pk tgt temp = tgt ++ added
    /\ unique_keys added = true
    /\ forall r, In r added <->
         exists pre post,
           temp = pre ++ r :: post
           /\ has_key (pk r) tgt = false /\ has_key (pk r) pre = false.
Proof. apply merge_first_rows. Qed.

(** X12.  After the merge the keys of the target are the keys it had and
    the keys of the batch, no other. *)
Theorem X12_merge_keys (k : key) (tgt temp : list row) :
  has_key k (merge tgt temp) = has_key k tgt || has_key k temp.
Proof.
  revert tgt. induction temp as [|r rs IH]; intros tgt; simpl.
  - now rewrite orb_false_r.
  - rewrite IH. destruct (has_key (pk r) tgt) eqn:Hk.
    + destruct (key_eq_dec (pk r) k) as [<-|Hne]; [|reflexivity].
      now rewrite Hk.
    + rewrite has_key_app. simpl. rewrite orb_false_r.
      now rewrite orb_assoc.
Qed.

Lemma merge_unique (tgt temp : list row) :
  unique_keys tgt = true -> unique_keys (merge tgt temp) = true.
Proof.
  intros Hu. destruct (merge_appends temp tgt) as [added [-> [Hin Hnd]]].
  apply unique_keys_NoDup. rewrite map_app. apply NoDup_app.
  - now apply unique_keys_NoDup.
  - exact Hnd.
  - intros k Hk Hk'. apply in_map_iff in Hk' as [r [<- Hr]].
    destruct (Hin r Hr) as [_ Hf]. now apply has_key_not_In in Hf.
Qed.

Lemma merge_disjoint (tgt temp : list row) :
  unique_keys (tgt ++ temp) = true -> merge tgt temp = tgt ++ temp.
Proof.
  revert tgt. induction temp as [|r rs IH]; intros tgt Hu; simpl.
  - now rewrite app_nil_r.
  - assert (Hk : has_key (pk r) tgt = false).
    { apply has_key_not_In. apply unique_keys_NoDup in Hu.
      rewrite map_app in Hu. simpl in Hu. apply NoDup_remove_2 in Hu.
      intros H. apply Hu. apply in_or_app. now left. }
    rewrite Hk, IH; rewrite <- app_assoc; [reflexivity | exact Hu].
Qed.

(** X13.  A batch whose keys are new and different from one another is
    appended whole, in its order. *)
Theorem X13_merge_without_conflict (tgt temp : list row) :
  unique_keys (tgt ++ temp) = true -> merge tgt temp = tgt ++ temp.
Proof. apply merge_disjoint. Qed.

(** X14.  Merging two batches one after the other is merging their
    concatenation. *)
Theorem X14_merge_batches (tgt a b : list row) :
  insert_on_conflict_do_nothing key_eq_dec pk
    (insert_on_conflict_do_nothing key_eq_dec pk tgt a) b
  = insert_on_conflict_do_nothing key_eq_dec pk tgt (a ++ b).
Proof.
  revert tgt. induction a as [|r rs IH]; intros tgt; simpl; [reflexivity|].
  apply IH.
Qed.

Lemma write_df_pk_err (df : list row) (s : store row) (e : error) :
  _write_df key_eq_dec df (Some pk) s = Err e
  <-> e = UniqueViolation
      /\ exists t, target s = Some t /\ t_pk t = false
                   /\ unique_keys (t_rows t) = false.
Proof.
  unfold _write_df, add_pk_once. destruct (target s) as [t|]; simpl.
  - destruct (t_pk t) eqn:Ep; simpl.
    + split; [discriminate|]. intros [_ [t' [E [Hp _]]]].
      injection E as <-. congruence.
    + destruct (unique_keys (t_rows t)) eqn:Eu; simpl.
      * split; [discriminate|]. intros [_ [t' [E [_ Hu]]]].
        injection E as <-. congruence.
      * split.
        -- intros E. injection E as <-. split; [reflexivity|]. now exists t.
        -- now intros [-> _].
  - split; [discriminate|]. intros [_ [t [E _]]]. discriminate.
Qed.

(** X16.  No two rows with one key.  After a successful hashed write on a
    consistent store the table carries the primary key and no two of its
    rows have the same key. *)
Theorem X16_write_df_unique (df : list row) (s s1 : store row) :
  store_ok key_eq_dec pk s ->
  _write_df key_eq_dec df (Some pk) s = Ok s1 ->
  exists t1, target s1 = Some t1 /\ t_pk t1 = true
             /\ unique_keys (t_rows t1) = true
             /\ store_ok key_eq_dec pk s1.
Proof.
  intros Hok H.
  assert (Hu : unique_keys (rows_of s) = true).
  { unfold _write_df, add_pk_once, store_ok, rows_of in *.
    destruct (target s) as [t|]; [|reflexivity]. simpl in H.
    destruct (t_pk t); [now apply Hok|].
    now destruct (unique_keys (t_rows t)). }
  apply write_df_pk_ok in H as [old [Eo ->]]. fold (rows_of s) in Eo.
  subst old. eexists. split; [reflexivity|]. simpl.
  split; [reflexivity|]. split; [now apply merge_unique|].
  unfold store_ok. simpl. intros _. now apply merge_unique.
Qed.

End MergeMore.

(** ** create_bronze_hash and populate_db: errors, frame, invariants *)

Lemma mapM_ok_in {A B : Type} (f : A -> result B) (l : list A) (m : list B) :
  mapM f l = Ok m ->
  (forall a, In a l -> exists b, f a = Ok b /\ In b m)
  /\ (forall b, In b m -> exists a, In a l /\ f a = Ok b).
Proof.
  revert m. induction l as [|a r IH]; intros m; simpl.
  - intros E. injection E as <-. split; intros ? [].
  - destruct (f a) as [b|e] eqn:Ea; [|discriminate]. cbn [bind].
    destruct (mapM f r) as [br|e]; [|discriminate]. cbn [bind].
    intros E. injection E as <-. destruct (IH br eq_refl) as [H1 H2]. split.
    + intros x [<-|Hx]; [exists b; split; [exact Ea | now left]|].
      destruct (H1 x Hx) as [y [Ey Hy]]. exists y. split; [exact Ey | now right].
    + intros y [<-|Hy]; [exists a; split; [now left | exact Ea]|].
      destruct (H2 y Hy) as [x [Hx Ex]]. exists x. split; [now right | exact Ex].
Qed.

Lemma mapM_err_in {A B : Type} (f : A -> result B) (l : list A) (e : error) :
  mapM f l = Err e -> exists a, In a l /\ f a = Err e.
Proof.
  induction l as [|a r IH]; simpl; [discriminate|].
  destruct (f a) as [b|e'] eqn:Ea; cbn [bind].
  - destruct (mapM f r) as [br|e']; cbn [bind]; [discriminate|].
    intros E. injection E as ->. destruct (IH eq_refl) as [x [Hx Ex]].
    exists x. split; [now right | exact Ex].
  - intros E. injection E as ->. exists a. split; [now left | exact Ea].
Qed.

Section BronzeMore.

Variable upper_cp : N -> pystr.
Variable cfg_record_source : pystr.

Local Abbreviation bk_hash_of := (bk_hash_of upper_cp).
Local Abbreviation row_hash_of := (row_hash_of upper_cp).
Local Abbreviation with_columns := (with_columns upper_cp cfg_record_source).
Local Abbreviation create_bronze_hash :=
  (create_bronze_hash upper_cp cfg_record_source).
Local Abbreviation hashed_ok := (hashed_ok upper_cp).
Local Abbreviation has_hkey := (has_key pk_eq_dec pk_hash).

Lemma with_columns_ok (now : Z) (r : raw_row) (h : hashed_row) :
  with_columns now r = Ok h
  <-> exists bk rh, bk_hash_of r = Some bk /\ row_hash_of r = Some rh
                    /\ h = HashedRow r bk rh now cfg_record_source.
Proof.
  unfold with_columns.
  destruct (bk_hash_of r) as [bk|]; simpl.
  - destruct (row_hash_of r) as [rh|]; simpl.
    + split.
      * intros E. injection E as <-. now exists bk, rh.
      * intros [bk' [rh' [E1 [E2 ->]]]]. injection E1 as <-.
        injection E2 as <-. reflexivity.
    + split; [discriminate | intros [? [? [_ [E _]]]]; discriminate].
  - split; [discriminate | intros [? [? [E _]]]; discriminate].
Qed.

Lemma with_columns_err (now : Z) (r : raw_row) (e : error) :
  with_columns now r = Err e
  <-> e = UnicodeEncodeError
      /\ (bk_hash_of r = None \/ row_hash_of r = None).
Proof.
  unfold with_columns.
  destruct (bk_hash_of r) as [bk|]; simpl.
  - destruct (row_hash_of r) as [rh|]; simpl.
    + split; [discriminate | intros [_ [E|E]]; discriminate].
    + split; [intros E; injection E as <-; split; [reflexivity | now right]
             | now intros [-> _]].
  - split; [intros E; injection E as <-; split; [reflexivity | now left]
           | now intros [-> _]].
Qed.

(** The frame is made when every row can be hashed, and only then. *)
Lemma frame_ok_iff (now : Z) (rows : list raw_row) :
  (exists df, mapM (with_columns now) rows = Ok df)
  <-> forall r, In r rows -> bk_hash_of r <> None /\ row_hash_of r <> None.
Proof.
  split.
  - intros [df E] r Hr. apply mapM_ok_in in E as [H _].
    destruct (H r Hr) as [h [Eh _]].
    apply with_columns_ok in Eh as [bk [rh [E1 [E2 _]]]].
    rewrite E1, E2. split; discriminate.
  - intros H. destruct (mapM (with_columns now) rows) as [df|e] eqn:E;
      [now exists df|].
    apply mapM_err_in in E as [r [Hr Er]].
    apply with_columns_err in Er as [_ [Er|Er]];
      destruct (H r Hr); contradiction.
Qed.

(** X17.  The three ways [create_bronze_hash] fails: the bronze table was
    never written; a bronze row holds a value that cannot be encoded; the
    hashed table exists without its primary key and with two rows of one
    key.  A failure of the third kind is found only after every row was
    hashed. *)
Theorem X17_create_bronze_hash_failure (now : Z) (db : pg) :
  (create_bronze_hash now db = Err UndefinedTable
   <-> target (tbl_bronze db) = None)
  /\ (create_bronze_hash now db = Err UnicodeEncodeError
      <-> exists r, In r (rows_of (tbl_bronze db))
                    /\ (bk_hash_of r = None \/ row_hash_of r = None))
  /\ (create_bronze_hash now db = Err UniqueViolation
      <-> rows_of (tbl_bronze db) <> []
          /\ (forall r, In r (rows_of (tbl_bronze db)) ->
                bk_hash_of r <> None /\ row_hash_of r <> None)
          /\ exists t, target (tbl_bhash db) = Some t /\ t_pk t = false
                       /\ unique_keys pk_eq_dec pk_hash (t_rows t) = false).
Proof.
  unfold create_bronze_hash, rows_of.
  destruct (target (tbl_bronze db)) as [t|] eqn:Et.
  2:{ split; [tauto|]. split; (split; [discriminate|]).
      - intros [r [[] _]].
      - intros [H _]. congruence. }
  destruct (t_rows t) as [|r0 rs] eqn:Er.
  { split; [split; discriminate|]. split; (split; [discriminate|]).
    - intros [r [[] _]].
    - intros [H _]. congruence. }
  rewrite <- Er.
  destruct (mapM (with_columns now) (t_rows t)) as [df|e] eqn:Em; cbn [bind].
  - assert (Hall : forall r, In r (t_rows t) ->
                     bk_hash_of r <> None /\ row_hash_of r <> None).
    { apply (frame_ok_iff now). now exists df. }
    destruct (_write_df pk_eq_dec df (Some pk_hash) (tbl_bhash db))
      as [s|e] eqn:Ew; cbn [bind].
    + split; [split; discriminate|]. split; (split; [discriminate|]).
      * intros [r [Hr [E|E]]]; destruct (Hall r Hr); contradiction.
      * intros [_ [_ Ht]].
        assert (H : _write_df pk_eq_dec df (Some pk_hash) (tbl_bhash db)
                    = Err UniqueViolation).
        { apply (write_df_pk_err pk_eq_dec pk_hash). now split. }
        congruence.
    + apply (write_df_pk_err pk_eq_dec pk_hash) in Ew as [-> Ht].
      split; [split; discriminate|]. split.
      * split; [discriminate|].
        intros [r [Hr [E|E]]]; destruct (Hall r Hr); contradiction.
      * split; [|reflexivity]. intros _. split; [congruence|]. now split.
  - pose proof Em as Em'.
    apply mapM_err_in in Em' as [r [Hr Ee]].
    apply with_columns_err in Ee as [-> Hn].
    split; [split; discriminate|]. split.
    + split; [|reflexivity]. intros _. now exists r.
    + split; [discriminate|]. intros [_ [Hall _]].
      destruct (Hall r Hr). destruct Hn; contradiction.
Qed.

Lemma populate_db_ok (df : list raw_row) (db : pg) :
  populate_db df db
  = Ok (Pg (Store (Some (Table (rows_of (tbl_bronze db) ++ df)
                               (match target (tbl_bronze db) with
                                | Some t => t_pk t
                                | None => false
                                end)))
                  (Some df))
           (tbl_bhash db),
        length df).
Proof.
  unfold populate_db, _write_df, rows_of.
  now destruct (target (tbl_bronze db)).
Qed.

(** What a successful run adds to the hashed table, and where from. *)
Lemma create_bronze_hash_adds (now : Z) (db db1 : pg) (n : nat) :
  create_bronze_hash now db = Ok (db1, n) ->
  tbl_bronze db1 = tbl_bronze db
  /\ exists added,
       rows_of (tbl_bhash db1) = rows_of (tbl_bhash db) ++ added
       /\ NoDup (map pk_hash added)
       /\ forall h, In h added ->
            has_hkey (pk_hash h) (rows_of (tbl_bhash db)) = false
            /\ exists r bk rh,
                 In r (rows_of (tbl_bronze db))
                 /\ bk_hash_of r = Some bk /\ row_hash_of r = Some rh
                 /\ h = HashedRow r bk rh now cfg_record_source.
Proof.
  intros H.
  apply (create_bronze_hash_ok upper_cp cfg_record_source) in H
    as [t [Et [En [[Er ->] | [df [s [Er [Em [Ew ->]]]]]]]]].
  - split; [reflexivity|]. exists []. rewrite app_nil_r.
    split; [reflexivity|]. split; [constructor | intros h []].
  - split; [reflexivity|].
    apply write_df_pk_ok in Ew as [old [Eo ->]]. fold (rows_of (tbl_bhash db)) in Eo.
    subst old.
    destruct (merge_appends pk_eq_dec pk_hash df (rows_of (tbl_bhash db)))
      as [added [E [Hin Hnd]]].
    exists added. unfold rows_of at 1. cbn [tbl_bhash target t_rows].
    split; [exact E|]. split; [exact Hnd|].
    intros h Hh. destruct (Hin h Hh) as [Hdf Hk]. split; [exact Hk|].
    apply mapM_ok_in in Em as [_ Hback].
    destruct (Hback h Hdf) as [r [Hr Eh]].
    apply with_columns_ok in Eh as [bk [rh [E1 [E2 ->]]]].
    exists r, bk, rh. unfold rows_of. rewrite Et. repeat split; assumption.
Qed.

(** X19.  On a bronze table of text columns, a successful
    [create_bronze_hash] reads the bronze table without changing it, and
    leaves every row of the hashed table as it is and where it is.  The rows
    it adds are hashed bronze rows with a key that was not in the table:
    each carries its bronze row, the two hashes of that row, the clock of
    this run and the record source. *)
Theorem X19_create_bronze_hash_adds (now : Z) (db db1 : pg) (n : nat) :
  (forall r, In r (rows_of (tbl_bronze db)) -> text_row r) ->
  create_bronze_hash now db = Ok (db1, n) ->
  tbl_bronze db1 = tbl_bronze db
  /\ exists added,
       rows_of (tbl_bhash db1) = rows_of (tbl_bhash db) ++ added
       /\ forall h, In h added ->
            In (raw h) (rows_of (tbl_bronze db))
            /\ hashed_ok h
            /\ load_dts h = now /\ record_source h = cfg_record_source
            /\ has_hkey (pk_hash h) (rows_of (tbl_bhash db)) = false.
Proof.
  intros _ H.
  apply create_bronze_hash_adds in H as [Hb [added [E [_ Hin]]]].
  split; [exact Hb|]. exists added. split; [exact E|].
  intros h Hh. destruct (Hin h Hh) as [Hk [r [bk [rh [Hr [E1 [E2 ->]]]]]]].
  unfold hashed_ok. cbn. repeat split; assumption.
Qed.

(** After a successful run the key of every bronze row is in the hashed
    table. *)
Lemma create_bronze_hash_covers (now : Z) (db db1 : pg) (n : nat) :
  create_bronze_hash now db = Ok (db1, n) ->
  forall r, In r (rows_of (tbl_bronze db)) ->
    exists bk rh,
      bk_hash_of r = Some bk /\ row_hash_of r = Some rh
      /\ has_hkey (bk, rh) (rows_of (tbl_bhash db1)) = true.
Proof.
  intros H r Hr.
  apply (create_bronze_hash_ok upper_cp cfg_record_source) in H
    as [t [Et [En [[Er ->] | [df [s [Er [Em [Ew ->]]]]]]]]].
  - unfold rows_of in Hr. rewrite Et, Er in Hr. destruct Hr.
  - unfold rows_of in Hr. rewrite Et in Hr.
    apply mapM_ok_in in Em as [Hfwd _].
    destruct (Hfwd r Hr) as [h [Eh Hh]].
    apply with_columns_ok in Eh as [bk [rh [E1 [E2 ->]]]].
    exists bk, rh. split; [exact E1|]. split; [exact E2|].
    apply write_df_pk_ok in Ew as [old [_ ->]].
    unfold rows_of. cbn [tbl_bhash target t_rows].
    exact (merge_covers pk_eq_dec pk_hash df old _ Hh).
Qed.

(** X20.  Nothing is lost: on a bronze table of text columns, after a
    successful [create_bronze_hash] every row of the bronze table can be
    hashed and the hashed table holds a row with its two hashes. *)
Theorem X20_create_bronze_hash_covers (now : Z) (db db1 : pg) (n : nat) :
  (forall r, In r (rows_of (tbl_bronze db)) -> text_row r) ->
  create_bronze_hash now db = Ok (db1, n) ->
  forall r, In r (rows_of (tbl_bronze db)) ->
    exists bk rh,
      bk_hash_of r = Some bk /\ row_hash_of r = Some rh
      /\ exists h, In h (rows_of (tbl_bhash db1))
                   /\ bk_hash h = bk /\ row_hash h = rh.
Proof.
  intros _ H r Hr.
  destruct (create_bronze_hash_covers now db db1 n H r Hr)
    as [bk [rh [E1 [E2 Hk]]]].
  exists bk, rh. split; [exact E1|]. split; [exact E2|].
  apply has_key_In, in_map_iff in Hk as [h [Eh Hh]].
  exists h. split; [exact Hh|]. unfold pk_hash in Eh.
  injection Eh as <- <-. now split.
Qed.

End BronzeMore.

(** A batch whose keys are all in a table that carries its primary key
    leaves the table as it is. *)
Lemma write_df_noop {row key : Type}
    (key_eq_dec : forall a b : key, {a = b} + {a <> b}) (pk : row -> key)
    (df : list row) (s : store row) (R : list row) :
  target s = Some (Table R true) ->
  (forall r, In r df -> has_key key_eq_dec pk (pk r) R = true) ->
  _write_df key_eq_dec df (Some pk) s = Ok (Store (target s) (Some df)).
Proof.
  intros Et Hk. unfold _write_df, add_pk_once. rewrite Et. cbn.
  now rewrite merge_noop.
Qed.

(** ** The schemas that can be reached, and [main] *)

Section AppFacts.

Variable upper_cp : N -> pystr.
Variable cfg_record_source : pystr.
Variable cfg_table_name : pystr.

Local Abbreviation bk_hash_of := (bk_hash_of upper_cp).
Local Abbreviation row_hash_of := (row_hash_of upper_cp).
Local Abbreviation with_columns := (with_columns upper_cp cfg_record_source).
Local Abbreviation create_bronze_hash :=
  (create_bronze_hash upper_cp cfg_record_source).
Local Abbreviation hashed_ok := (hashed_ok upper_cp).
Local Abbreviation reachable := (reachable upper_cp cfg_record_source).
Local Abbreviation main := (main upper_cp cfg_record_source cfg_table_name).

Lemma create_bronze_hash_unique_violation (now : Z) (db : pg) :
  create_bronze_hash now db = Err UniqueViolation ->
  exists t, target (tbl_bhash db) = Some t /\ t_pk t = false.
Proof.
  unfold create_bronze_hash.
  destruct (target (tbl_bronze db)) as [t|]; [|discriminate].
  destruct (t_rows t) as [|r rs]; [discriminate|].
  destruct (mapM _ _) as [df|e] eqn:Em; cbn [bind].
  - destruct (_write_df pk_eq_dec df (Some pk_hash) (tbl_bhash db))
      as [s|e] eqn:Ew; cbn [bind]; [discriminate|].
    intros _. apply write_df_pk_err in Ew as [_ [t' [Et [Ep _]]]].
    now exists t'.
  - intros E. injection E as ->.
    apply mapM_err_in in Em as [x [_ Ex]].
    apply with_columns_err in Ex as [Ex _]. discriminate.
Qed.

Lemma reachable_inv (db : pg) :
  reachable db ->
  (forall t, target (tbl_bhash db) = Some t -> t_pk t = true)
  /\ unique_keys pk_eq_dec pk_hash (rows_of (tbl_bhash db)) = true
  /\ (forall h, In h (rows_of (tbl_bhash db)) ->
        hashed_ok h /\ In (raw h) (rows_of (tbl_bronze db))).
Proof.
  induction 1 as [|df db db' n Hr [IH1 [IH2 IH3]] Hp
                  |now db db' n Hr [IH1 [IH2 IH3]] Hh].
  - split; [discriminate|]. split; [reflexivity | intros h []].
  - rewrite populate_db_ok in Hp. injection Hp as <- _.
    split; [exact IH1|]. split; [exact IH2|].
    intros h Hh. destruct (IH3 h Hh) as [Hok Hin]. split; [exact Hok|].
    unfold rows_of at 1. cbn [tbl_bronze target t_rows].
    apply in_or_app. now left.
  - pose proof (create_bronze_hash_adds upper_cp cfg_record_source _ _ _ _ Hh)
      as [Hb [added [E [_ Hin]]]].
    apply (create_bronze_hash_ok upper_cp cfg_record_source) in Hh
      as [t [Et [En [[Er ->] | [df [s [Er [Em [Ew ->]]]]]]]]];
      [split; [exact IH1 | split; [exact IH2 | exact IH3]]|].
    split; [|split].
    + apply write_df_pk_ok in Ew as [old [_ ->]]. cbn.
      intros t' E'. now injection E' as <-.
    + apply write_df_pk_ok in Ew as [old [Eo ->]].
      fold (rows_of (tbl_bhash db)) in Eo. subst old.
      unfold rows_of at 1. cbn [tbl_bhash target t_rows].
      now apply merge_unique.
    + rewrite E, Hb. intros h Hh'. apply in_app_or in Hh' as [Hh'|Hh'];
        [now apply IH3|].
      destruct (Hin h Hh') as [_ [r [bk [rh [Hr' [E1 [E2 ->]]]]]]].
      split; [now split | exact Hr'].
Qed.

(** X21.  In every schema that [populate_db] and [create_bronze_hash]
    produce from the empty one, the hashed table has no two rows with one
    (bk_hash, row_hash), each of its rows carries the two hashes of its own
    columns and comes from a row of the bronze table, and
    [create_bronze_hash] does not fail on the primary key. *)
Theorem X21_reachable_invariant (db : pg) :
  reachable db ->
  unique_keys pk_eq_dec pk_hash (rows_of (tbl_bhash db)) = true
  /\ (forall h, In h (rows_of (tbl_bhash db)) ->
        hashed_ok h /\ In (raw h) (rows_of (tbl_bronze db)))
  /\ forall now, create_bronze_hash now db <> Err UniqueViolation.
Proof.
  intros H. destruct (reachable_inv db H) as [H1 [H2 H3]].
  split; [exact H2|]. split; [exact H3|].
  intros now E. apply create_bronze_hash_unique_violation in E
    as [t [Et Ep]].
  rewrite (H1 t Et) in Ep. discriminate.
Qed.

(** The two steps of a successful [main]. *)
Lemma main_ok (df : list raw_row) (now : Z) (s : option pg)
    (db1 : pg) (out : list pystr) :
  main df now s = Ok (db1, out) ->
  exists dbp n,
    populate_db df (create_db s) = Ok (dbp, length df)
    /\ rows_of (tbl_bronze dbp) = rows_of (tbl_bronze (create_db s)) ++ df
    /\ tbl_bhash dbp = tbl_bhash (create_db s)
    /\ create_bronze_hash now dbp = Ok (db1, n)
    /\ out = [report cfg_table_name (length df);
              report (cfg_table_name ++ [95; 104; 97; 115; 104]) n].
Proof.
  unfold main. rewrite populate_db_ok. cbn [bind fst snd].
  destruct (create_bronze_hash now _) as [[d n]|e] eqn:E; cbn [bind fst snd];
    [|discriminate].
  intros H. injection H as <- <-. eexists _, n.
  split; [reflexivity|]. split; [reflexivity|]. split; [reflexivity|].
  split; [exact E | reflexivity].
Qed.


(** A run on a hashed table that carries its primary key and already holds
    the key of every bronze row changes neither table. *)
Lemma create_bronze_hash_noop (now : Z) (db : pg) (R : list hashed_row) :
  target (tbl_bronze db) <> None ->
  target (tbl_bhash db) = Some (Table R true) ->
  (forall r, In r (rows_of (tbl_bronze db)) ->
     exists bk rh, bk_hash_of r = Some bk /\ row_hash_of r = Some rh
                   /\ has_key pk_eq_dec pk_hash (bk, rh) R = true) ->
  exists db2 n,
    create_bronze_hash now db = Ok (db2, n)
    /\ target (tbl_bhash db2) = target (tbl_bhash db)
    /\ tbl_bronze db2 = tbl_bronze db.
Proof.
  intros Hb Eh Hcov. unfold create_bronze_hash, rows_of in *.
  destruct (target (tbl_bronze db)) as [t|]; [clear Hb | congruence].
  destruct (t_rows t) as [|r0 rs] eqn:Er; [now exists db, 0%nat|].
  rewrite <- Er in *.
  destruct (proj2 (frame_ok_iff upper_cp cfg_record_source now (t_rows t)))
    as [df Em].
  { intros r Hr. destruct (Hcov r Hr) as [bk [rh [E1 [E2 _]]]].
    rewrite E1, E2. split; discriminate. }
  rewrite Em. cbn [bind].
  rewrite (write_df_noop pk_eq_dec pk_hash df (tbl_bhash db) R Eh).
  - cbn [bind]. eexists _, _. split; [reflexivity|]. now split.
  - intros h Hh. apply mapM_ok_in in Em as [_ Hback].
    destruct (Hback h Hh) as [r [Hr Ek]].
    apply with_columns_ok in Ek as [bk [rh [E1 [E2 ->]]]].
    destruct (Hcov r Hr) as [bk' [rh' [E1' [E2' Hk]]]].
    assert (Ebk : bk = bk') by congruence.
    assert (Erh : rh = rh') by congruence. subst bk' rh'. exact Hk.
Qed.



End AppFacts.

(** ** Concrete inputs for the further properties *)

Lemma latin1_digits (c : N) :
  c = 45 \/ 48 <= c <= 57 -> upper_latin1 c = [c].
Proof. intros H. apply latin1_fix; lia. Qed.

Lemma latin1_unenc_fix (c : N) : unencodable c -> upper_latin1 c = [c].
Proof. unfold unencodable. intros H. apply latin1_fix; lia. Qed.

Lemma latin1_unenc_only (c x : N) :
  unencodable x -> In x (upper_latin1 c) -> c = x.
Proof.
  unfold unencodable. intros Hx.
  latin1_cases c;
    match goal with E : upper_latin1 c = _ |- _ => rewrite E end;
    simpl; intros Hin; lia.
Qed.

(** On [" a\t"] and ["a"]. *)
Lemma norm_surrounding_space_witness :
  _norm upper_latin1 (VStr ([32] ++ [97] ++ [9])) = _norm upper_latin1 (VStr [97]).
Proof.
  apply (X1_norm_surrounding_space upper_latin1 [32] [97] [9]); reflexivity.
Defined.

(** On ["a \t b"] and ["a b"]. *)
Lemma norm_space_runs_witness :
  _norm upper_latin1 (VStr [97; 32; 9; 32; 98])
  = _norm upper_latin1 (VStr [97; 32; 98]).
Proof.
  apply (X2_norm_space_runs upper_latin1 latin1_space latin1_nonspace).
  reflexivity.
Defined.

(** On [" a  b "]. *)
Lemma norm_canonical_witness :
  _norm upper_latin1 (VStr [32; 97; 32; 32; 98; 32]) <> []
  /\ trimmed (_norm upper_latin1 (VStr [32; 97; 32; 32; 98; 32]))
  /\ single_spaced false (_norm upper_latin1 (VStr [32; 97; 32; 32; 98; 32]))
     = true.
Proof. apply (X3_norm_canonical upper_latin1 latin1_nonspace). Defined.

(** On ["§Null§ "], which is the sentinel once trimmed and upper-cased. *)
Lemma norm_sentinel_iff_witness :
  _norm upper_latin1 (VStr [0xA7; 78; 117; 108; 108; 0xA7; 32]) = _NULL.
Proof.
  apply (X4_norm_sentinel_iff upper_latin1 latin1_nonspace).
  right. right. reflexivity.
Defined.

(** On ["abc"]. *)
Lemma norm_case_witness :
  _norm upper_latin1 (VStr (upper upper_latin1 [97; 98; 99]))
  = _norm upper_latin1 (VStr [97; 98; 99]).
Proof.
  apply (X5_norm_case upper_latin1 latin1_space latin1_nonspace latin1_idem).
Defined.

(** On -42. *)
Lemma norm_int_witness :
  _norm upper_latin1 (VInt (-42)) = Py.int_str (-42)
  /\ (forall z', _norm upper_latin1 (VInt (-42)) = _norm upper_latin1 (VInt z')
                 -> (-42)%Z = z')
  /\ _norm upper_latin1 (VInt (-42)) <> _NULL
  /\ _norm upper_latin1 (VInt (-42))
     = _norm upper_latin1 (VStr (Py.int_str (-42))).
Proof. apply (X6_norm_int upper_latin1 latin1_digits). Defined.

(** On [["a"; None]]. *)
Lemma dv2_hash_shape_witness :
  exists h, dv2_hash upper_latin1 [VStr [97]; VNone] = Some h
            /\ length h = 64%nat /\ forallb is_lower_hex h = true.
Proof.
  destruct (dv2_hash upper_latin1 [VStr [97]; VNone]) as [h|] eqn:E.
  - exists h. split; [reflexivity|].
    exact (X7_dv2_hash_shape upper_latin1 _ h E).
  - vm_compute in E. discriminate.
Defined.

(** On a sequence with the integer 7 and a string that holds the
    surrogate U+D800. *)
Lemma dv2_hash_raises_witness :
  (forall v, In v [VInt 7; VStr [98; 0xD800]] -> str_defined v)
  /\ dv2_hash upper_latin1 [VInt 7; VStr [98; 0xD800]] = None.
Proof.
  assert (Hd : forall v, In v [VInt 7; VStr [98; 0xD800]] -> str_defined v).
  { intros v [<-|[<-|[]]]; [|exact I].
    unfold str_defined. vm_compute. reflexivity. }
  split; [exact Hd|].
  apply (X8_dv2_hash_raises_iff upper_latin1 latin1_unenc_fix
           latin1_unenc_only _ Hd).
  exists (VStr [98; 0xD800]), 0xD800.
  split; [right; now left|]. split; [right; now left|].
  left. split; discriminate.
Defined.

(** On [[" a"; 7]] and [["A"; "7"]], which have the same tokens. *)
Lemma dv2_hash_same_digest_witness :
  exists h,
    dv2_hash upper_latin1 [VStr [32; 97]; VInt 7] = Some h
    /\ dv2_hash upper_latin1 [VStr [65]; VStr [55]] = Some h
    /\ (map (_norm upper_latin1) [VStr [32; 97]; VInt 7]
        = map (_norm upper_latin1) [VStr [65]; VStr [55]]
        \/ exists b1 b2,
             Utf8.encode (joined upper_latin1 [VStr [32; 97]; VInt 7])
             = Some b1
             /\ Utf8.encode (joined upper_latin1 [VStr [65]; VStr [55]])
                = Some b2
             /\ b1 <> b2
             /\ Sha256.hexdigest b1 = h /\ Sha256.hexdigest b2 = h).
Proof.
  destruct (dv2_hash upper_latin1 [VStr [32; 97]; VInt 7]) as [h|] eqn:E.
  - exists h. split; [reflexivity|].
    assert (E' : dv2_hash upper_latin1 [VStr [65]; VStr [55]] = Some h)
      by (rewrite <- E; reflexivity).
    split; [exact E'|].
    apply (X9_dv2_hash_same_digest upper_latin1 latin1_sep _ _ h);
      [|exact E | exact E'].
    intros v [H|H]; simpl in H;
      repeat (destruct H as [H|H]; [subst v|]); try contradiction;
      simpl; intros H;
      repeat (destruct H as [H|H]; [discriminate|]); exact H.
  - vm_compute in E. discriminate.
Defined.

(** Rows (key, payload) for the merge: a target with key 1, a batch with
    the new keys 2 and 3. *)
Lemma merge_without_conflict_witness :
  insert_on_conflict_do_nothing N.eq_dec (@fst N N)
    [(1, 10)] [(2, 20); (3, 30)]
  = [(1, 10)] ++ [(2, 20); (3, 30)].
Proof.
  apply (X13_merge_without_conflict N.eq_dec (@fst N N)). reflexivity.
Defined.

(** A batch with the key 1 twice, written to a store without table: the
    first row is kept. *)
Lemma write_df_unique_witness :
  exists t1,
    target (Store (Some (Table [(1, 10)] true)) (Some [(1, 10); (1, 11)]))
    = Some t1
    /\ t_pk t1 = true
    /\ unique_keys N.eq_dec (@fst N N) (t_rows t1) = true
    /\ store_ok N.eq_dec (@fst N N)
         (Store (Some (Table [(1, 10)] true)) (Some [(1, 10); (1, 11)])).
Proof.
  apply (X16_write_df_unique N.eq_dec (@fst N N) [(1, 10); (1, 11)]
           (Store None None)); [exact I | reflexivity].
Defined.

(** The columns of the example schema are text. *)
Lemma ex_db_text (r : raw_row) :
  In r (rows_of (tbl_bronze ex_db)) -> text_row r.
Proof.
  intros [<-|[<-|[<-|[]]]]; repeat constructor.
Qed.

(** On the example schema: the first run adds two rows to the empty hashed
    table. *)
Lemma create_bronze_hash_adds_witness :
  (forall r, In r (rows_of (tbl_bronze ex_db)) -> text_row r)
  /\ exists db1 n added,
       create_bronze_hash upper_latin1 ex_source 1000 ex_db = Ok (db1, n)
       /\ tbl_bronze db1 = tbl_bronze ex_db
       /\ rows_of (tbl_bhash db1) = rows_of (tbl_bhash ex_db) ++ added
       /\ length added = 2%nat.
Proof.
  split; [exact ex_db_text|].
  destruct (create_bronze_hash upper_latin1 ex_source 1000 ex_db)
    as [[db1 n]|e] eqn:E.
  - destruct (X19_create_bronze_hash_adds upper_latin1 ex_source
                1000 ex_db db1 n ex_db_text E) as [Hb [added [Ea _]]].
    exists db1, n, added. split; [reflexivity|]. split; [exact Hb|].
    split; [exact Ea|].
    apply (f_equal (@length hashed_row)) in Ea. rewrite length_app in Ea.
    vm_compute in E. injection E as <- _. exact (eq_sym Ea).
  - vm_compute in E. discriminate.
Defined.

(** On the example schema: each of the three bronze rows has its hashes in
    the hashed table after the run. *)
Lemma create_bronze_hash_covers_witness :
  (forall r, In r (rows_of (tbl_bronze ex_db)) -> text_row r)
  /\ exists db1 n,
       create_bronze_hash upper_latin1 ex_source 1000 ex_db = Ok (db1, n)
       /\ forall r, In r ex_bronze ->
            exists bk rh,
              bk_hash_of upper_latin1 r = Some bk
              /\ row_hash_of upper_latin1 r = Some rh
              /\ exists h, In h (rows_of (tbl_bhash db1))
                           /\ bk_hash h = bk /\ row_hash h = rh.
Proof.
  split; [exact ex_db_text|].
  destruct (create_bronze_hash upper_latin1 ex_source 1000 ex_db)
    as [[db1 n]|e] eqn:E.
  - exists db1, n. split; [reflexivity|].
    exact (X20_create_bronze_hash_covers upper_latin1 ex_source
             1000 ex_db db1 n ex_db_text E).
  - vm_compute in E. discriminate.
Defined.

(** The example schema is reached by one [populate_db]; one
    [create_bronze_hash] on it reaches a schema whose hashed table has two
    rows, and the invariant is stated of that schema. *)
Lemma reachable_invariant_witness :
  exists db1 n,
    create_bronze_hash upper_latin1 ex_source 1000 ex_db = Ok (db1, n)
    /\ reachable upper_latin1 ex_source db1
    /\ row_count (tbl_bhash db1) = 2%nat
    /\ unique_keys pk_eq_dec pk_hash (rows_of (tbl_bhash db1)) = true
    /\ (forall h, In h (rows_of (tbl_bhash db1)) ->
          hashed_ok upper_latin1 h /\ In (raw h) (rows_of (tbl_bronze db1)))
    /\ forall now,
         create_bronze_hash upper_latin1 ex_source now db1
         <> Err UniqueViolation.
Proof.
  destruct (create_bronze_hash upper_latin1 ex_source 1000 ex_db)
    as [[db1 n]|e] eqn:E.
  - assert (Hr : reachable upper_latin1 ex_source db1).
    { exact (reach_hash upper_latin1 ex_source 1000 ex_db db1 n
               (reach_populate upper_latin1 ex_source ex_bronze empty_pg
                  ex_db 3 (reach_empty upper_latin1 ex_source)
                  populate_db_ex) E). }
    exists db1, n. split; [reflexivity|]. split; [exact Hr|].
    split; [|exact (X21_reachable_invariant upper_latin1 ex_source db1 Hr)].
    vm_compute in E. injection E as <- _. reflexivity.
  - vm_compute in E. discriminate.
Defined.



(** ** The generator *)

Lemma uint_str_zeros (k : nat) (u : Decimal.uint) :
  Py.uint_str (Nat.iter k Decimal.D0 u) = repeat 48 k ++ Py.uint_str u.
Proof. induction k as [|k IH]; simpl; [reflexivity | now rewrite IH]. Qed.

Lemma of_uint_zeros (k : nat) (u : Decimal.uint) :
  Z.of_uint (Nat.iter k Decimal.D0 u) = Z.of_uint u.
Proof. induction k as [|k IH]; simpl; [reflexivity | exact IH]. Qed.

(** The digits of a natural number, as the decimal numeral they print. *)
Lemma int_str_of_nat (i : nat) :
  exists u, Py.int_str (Z.of_nat i) = Py.uint_str u /\ Z.of_uint u = Z.of_nat i.
Proof.
  pose proof (DecimalZ.of_to (Z.of_nat i)) as H. unfold Py.int_str.
  destruct (Z.to_int (Z.of_nat i)) as [u|u] eqn:E.
  - exists u. split; [reflexivity | exact H].
  - exfalso. unfold Z.to_int in E.
    destruct (Z.of_nat i) as [|p|p] eqn:Ei; try discriminate. lia.
Qed.

Lemma cust_id_inj (i j : nat) : cust_id i = cust_id j -> i = j.
Proof.
  unfold cust_id, zfill. intros E. apply app_inv_head in E.
  destruct (int_str_of_nat i) as [u [Eu Vu]].
  destruct (int_str_of_nat j) as [w [Ew Vw]].
  rewrite Eu, Ew, <- !uint_str_zeros in E. apply uint_str_inj in E.
  apply (f_equal Z.of_uint) in E. rewrite !of_uint_zeros in E. lia.
Qed.

Lemma is_alnum_hyphen_spec (c : N) :
  is_alnum_hyphen c = true
  <-> c = 45 \/ 48 <= c <= 57 \/ 65 <= c <= 90 \/ 97 <= c <= 122.
Proof.
  unfold is_alnum_hyphen.
  rewrite !orb_true_iff, !andb_true_iff, !N.leb_le, N.eqb_eq. tauto.
Qed.

Lemma alphabet_alnum : forallb is_alnum_hyphen alphabet = true.
Proof. reflexivity. Qed.

Lemma int_str_alnum (z : Z) : forallb is_alnum_hyphen (Py.int_str z) = true.
Proof.
  apply forallb_forall. intros c Hc. apply int_str_chars in Hc.
  apply is_alnum_hyphen_spec. lia.
Qed.

Lemma cust_id_plain (i : nat) : plain_value (VStr (cust_id i)).
Proof.
  split; [discriminate|]. unfold cust_id, zfill.
  rewrite !forallb_app, int_str_alnum, andb_true_r. simpl.
  apply forallb_forall. intros c Hc. apply repeat_spec in Hc. now subst c.
Qed.

(** A plain value has no separator, no white space, no section sign and
    nothing that UTF-8 cannot encode. *)
Lemma plain_value_chars (v : value) (c : N) :
  plain_value v -> In c (Py.str v) ->
  c = 45 \/ 48 <= c <= 57 \/ 65 <= c <= 90 \/ 97 <= c <= 122.
Proof.
  destruct v as [|s|z]; simpl.
  - intros _ H. lia.
  - intros [_ H] Hc. rewrite forallb_forall in H.
    now apply is_alnum_hyphen_spec, H.
  - intros [].
Qed.

Lemma NoDup_map_inj {A B : Type} (f : A -> B) (l : list A) :
  (forall x y, f x = f y -> x = y) -> NoDup l -> NoDup (map f l).
Proof.
  intros Hf. induction 1 as [|a l Ha Hl IH]; simpl; constructor; [|exact IH].
  intros H. apply in_map_iff in H as [x [Ex Hx]].
  apply Hf in Ex. now subst x.
Qed.

Section CreateDfFacts.

Variable rng : Type.
Variable Random : Z -> rng.
Variable randint : Z -> Z -> rng -> Z * rng.
Variable choice : pystr -> rng -> N * rng.
Variable random_gt : N -> rng -> bool * rng.

Local Abbreviation gen := (gen rng).
Local Abbreviation rnd := (rnd rng choice).
Local Abbreviation fk := (fk rng randint random_gt).
Local Abbreviation rnd_or_none := (rnd_or_none rng choice random_gt).
Local Abbreviation _create_df :=
  (_create_df rng Random randint choice random_gt).

Lemma replicateM_spec {A : Type} (P : A -> Prop) (m : gen A) :
  (forall g, P (fst (m g))) ->
  forall n g, length (fst (replicateM rng n m g)) = n
              /\ Forall P (fst (replicateM rng n m g)).
Proof.
  intros Hm. induction n as [|n IH]; intros g; simpl.
  - split; [reflexivity | constructor].
  - unfold gbind, gret. specialize (Hm g).
    destruct (m g) as [a g1]. specialize (IH g1).
    destruct (replicateM rng n m g1) as [r g2]. simpl in *.
    destruct IH as [IH1 IH2]. split; [now rewrite IH1 | now constructor].
Qed.

Lemma frame_rows_spec (P : value -> Prop) (n : nat)
    (c1 c2 c3 c4 c5 c6 c7 c8 : list value) :
  length c1 = n -> length c2 = n -> length c3 = n -> length c4 = n ->
  length c5 = n -> length c6 = n -> length c7 = n -> length c8 = n ->
  length (frame_rows c1 c2 c3 c4 c5 c6 c7 c8) = n
  /\ map col1_bk (frame_rows c1 c2 c3 c4 c5 c6 c7 c8) = c1
  /\ (Forall P c1 -> Forall P c2 -> Forall P c3 -> Forall P c4 ->
      Forall P c5 -> Forall P c6 -> Forall P c7 -> Forall P c8 ->
      forall r, In r (frame_rows c1 c2 c3 c4 c5 c6 c7 c8) ->
        Forall P (columns r)).
Proof.
  revert c1 c2 c3 c4 c5 c6 c7 c8.
  induction n as [|n IH]; intros [|v1 c1] [|v2 c2] [|v3 c3] [|v4 c4]
    [|v5 c5] [|v6 c6] [|v7 c7] [|v8 c8]; simpl;
    try discriminate; intros L1 L2 L3 L4 L5 L6 L7 L8.
  - split; [reflexivity|]. split; [reflexivity|]. intros; contradiction.
  - injection L1 as L1. injection L2 as L2. injection L3 as L3.
    injection L4 as L4. injection L5 as L5. injection L6 as L6.
    injection L7 as L7. injection L8 as L8.
    destruct (IH c1 c2 c3 c4 c5 c6 c7 c8 L1 L2 L3 L4 L5 L6 L7 L8)
      as [IH1 [IH2 IH3]].
    split; [now rewrite IH1|]. split; [now rewrite IH2|].
    intros F1 F2 F3 F4 F5 F6 F7 F8 r [<-|Hr].
    + inversion F1; inversion F2; inversion F3; inversion F4;
        inversion F5; inversion F6; inversion F7; inversion F8; subst.
      unfold columns. cbn. repeat constructor; assumption.
    + inversion F1; inversion F2; inversion F3; inversion F4;
        inversion F5; inversion F6; inversion F7; inversion F8; subst.
      now apply IH3.
Qed.

(** The frame, by its columns. *)
Lemma create_df_columns (n : nat) :
  exists c2 c3 c4 c5 c6 c7 c8 g2 g3 g4 g5 g6 g7 g8,
    _create_df n
    = frame_rows (map (fun i => VStr (cust_id i)) (seq 0 n))
                 c2 c3 c4 c5 c6 c7 c8
    /\ c2 = fst (replicateM rng n
                   (gbind rng (randint 1 5) (fun z =>
                      gret rng (VStr ([83; 82; 67; 45] ++ Py.int_str z))))
                   g2)
    /\ c3 = fst (replicateM rng n (fk 1 100 999) g3)
    /\ c4 = fst (replicateM rng n (fk 2 1000 1999) g4)
    /\ c5 = fst (replicateM rng n
                   (gbind rng (rnd 10) (fun s => gret rng (VStr s))) g5)
    /\ c6 = fst (replicateM rng n
                   (gbind rng (randint 0 10000)
                      (fun z => gret rng (VStr (Py.int_str z)))) g6)
    /\ c7 = fst (replicateM rng n (rnd_or_none 3 5) g7)
    /\ c8 = fst (replicateM rng n (rnd_or_none 5 12) g8).
Proof.
  unfold _create_df.
  repeat match goal with
         | |- context [replicateM rng n ?m ?g] =>
             let c := fresh "c" in
             let g' := fresh "g" in
             let E := fresh "E" in
             destruct (replicateM rng n m g) as [c g'] eqn:E;
             apply (f_equal fst) in E; simpl in E
         end.
  repeat eexists; try reflexivity; symmetry; eassumption.
Qed.

(** X25.  The frame has as many rows as asked, its first business-key
    column is CUST-000000, CUST-000001, ... in order, and no two rows have
    the same business key, whatever the random draws. *)
Theorem X25_create_df_shape (n : nat) :
  length (_create_df n) = n
  /\ map col1_bk (_create_df n) = map (fun i => VStr (cust_id i)) (seq 0 n)
  /\ NoDup (map (fun r => (col1_bk r, col2_bk r)) (_create_df n)).
Proof.
  destruct (create_df_columns n)
    as (c2 & c3 & c4 & c5 & c6 & c7 & c8 & g2 & g3 & g4 & g5 & g6 & g7 & g8
        & E & E2 & E3 & E4 & E5 & E6 & E7 & E8).
  rewrite E.
  destruct (frame_rows_spec (fun _ => True) n
              (map (fun i => VStr (cust_id i)) (seq 0 n))
              c2 c3 c4 c5 c6 c7 c8) as [H1 [H2 _]];
    try (subst; apply (replicateM_spec (fun _ => True)); intros; exact I).
  { now rewrite length_map, length_seq. }
  split; [exact H1|]. split; [exact H2|].
  assert (Hnd : NoDup (map (fun i => VStr (cust_id i)) (seq 0 n))).
  { apply NoDup_map_inj; [|apply seq_NoDup].
    intros i j Hij. apply cust_id_inj. congruence. }
  rewrite <- H2 in Hnd. revert Hnd.
  generalize (frame_rows (map (fun i => VStr (cust_id i)) (seq 0 n))
                c2 c3 c4 c5 c6 c7 c8) as l.
  induction l as [|r l IH]; simpl; intros Hnd; [constructor|].
  apply NoDup_cons_iff in Hnd as [Hn Hl]. constructor; [|now apply IH].
  intros Hin. apply Hn. apply in_map_iff in Hin as [x [Ex Hx]].
  apply in_map_iff. exists x. split; [congruence | exact Hx].
Qed.

(** [rng.choice(s)] returns an element of [s]. *)
Hypothesis choice_in :
  forall s g, s <> [] -> In (fst (choice s g)) s.

Lemma rnd_plain (k : nat) (g : rng) :
  length (fst (rnd k g)) = k
  /\ forallb is_alnum_hyphen (fst (rnd k g)) = true.
Proof.
  destruct (replicateM_spec (fun c => is_alnum_hyphen c = true)
              (choice alphabet)) with (n := k) (g := g) as [H1 H2].
  - intros g'. pose proof alphabet_alnum as Ha.
    rewrite forallb_forall in Ha. apply Ha, choice_in. discriminate.
  - split; [exact H1|]. apply forallb_forall. now apply Forall_forall.
Qed.

Lemma rnd_value_plain (k : nat) (g : rng) :
  k <> 0%nat ->
  plain_value (fst (gbind rng (rnd k) (fun s => gret rng (VStr s)) g)).
Proof.
  intros Hk. unfold gbind, gret. destruct (rnd_plain k g) as [H1 H2].
  destruct (rnd k g) as [s g']. simpl in *. split; [|exact H2].
  intros ->. simpl in H1. congruence.
Qed.

Lemma rnd_or_none_plain (t : N) (k : nat) (g : rng) :
  k <> 0%nat -> plain_value (fst (rnd_or_none t k g)).
Proof.
  intros Hk. unfold rnd_or_none, gbind at 1.
  destruct (random_gt t g) as [[|] g1]; [|exact I].
  now apply rnd_value_plain.
Qed.

Lemma hyphenated_plain (p : pystr) (z : Z) :
  forallb is_alnum_hyphen p = true -> plain_value (VStr (p ++ Py.int_str z)).
Proof.
  intros Hp. split.
  - pose proof (int_str_not_nil z). now destruct p, (Py.int_str z).
  - now rewrite forallb_app, Hp, int_str_alnum.
Qed.

Lemma fk_plain (t : N) (a b : Z) (g : rng) : plain_value (fst (fk t a b g)).
Proof.
  unfold fk, gbind, gret.
  destruct (random_gt t g) as [[|] g1]; [|exact I].
  destruct (randint a b g1) as [z g2]. cbn [fst].
  now apply hyphenated_plain.
Qed.

Lemma create_df_plain (n : nat) (r : raw_row) :
  In r (_create_df n) -> Forall plain_value (columns r).
Proof.
  destruct (create_df_columns n)
    as (c2 & c3 & c4 & c5 & c6 & c7 & c8 & g2 & g3 & g4 & g5 & g6 & g7 & g8
        & E & E2 & E3 & E4 & E5 & E6 & E7 & E8).
  rewrite E.
  assert (L1 : length (map (fun i => VStr (cust_id i)) (seq 0 n)) = n)
    by now rewrite length_map, length_seq.
  assert (F1 : Forall plain_value (map (fun i => VStr (cust_id i)) (seq 0 n))).
  { apply Forall_forall. intros v Hv. apply in_map_iff in Hv as [i [<- _]].
    apply cust_id_plain. }
  assert (S2 : length c2 = n /\ Forall plain_value c2).
  { subst c2. apply replicateM_spec. intros g. unfold gbind, gret.
    destruct (randint 1 5 g) as [z g']. now apply hyphenated_plain. }
  assert (S3 : length c3 = n /\ Forall plain_value c3)
    by (subst c3; apply replicateM_spec; intros g; apply fk_plain).
  assert (S4 : length c4 = n /\ Forall plain_value c4)
    by (subst c4; apply replicateM_spec; intros g; apply fk_plain).
  assert (S5 : length c5 = n /\ Forall plain_value c5)
    by (subst c5; apply replicateM_spec; intros g;
        apply rnd_value_plain; discriminate).
  assert (S6 : length c6 = n /\ Forall plain_value c6).
  { subst c6. apply replicateM_spec. intros g. unfold gbind, gret.
    destruct (randint 0 10000 g) as [z g']. cbn [fst].
    apply (hyphenated_plain [] z). reflexivity. }
  assert (S7 : length c7 = n /\ Forall plain_value c7)
    by (subst c7; apply replicateM_spec; intros g;
        apply rnd_or_none_plain; discriminate).
  assert (S8 : length c8 = n /\ Forall plain_value c8)
    by (subst c8; apply replicateM_spec; intros g;
        apply rnd_or_none_plain; discriminate).
  destruct S2 as [L2 F2], S3 as [L3 F3], S4 as [L4 F4], S5 as [L5 F5],
    S6 as [L6 F6], S7 as [L7 F7], S8 as [L8 F8].
  destruct (frame_rows_spec plain_value n _ c2 c3 c4 c5 c6 c7 c8
              L1 L2 L3 L4 L5 L6 L7 L8) as [_ [_ H]].
  now apply H.
Qed.

(** X26.  Every value of the frame is null or a non-empty string of letters,
    digits and hyphens, whatever the random draws: no value holds the
    separator of [dv2_hash], white space, the section sign of the sentinel
    or a character that UTF-8 cannot encode. *)
Theorem X26_create_df_plain (n : nat) (r : raw_row) (v : value) :
  In r (_create_df n) -> In v (columns r) ->
  plain_value v
  /\ ~ In SEP (Py.str v) /\ ~ In 0xA7 (Py.str v)
  /\ (forall c, In c (Py.str v) ->
        Py.is_space c = false /\ ~ unencodable c).
Proof.
  intros Hr Hv. pose proof (create_df_plain n r Hr) as F.
  rewrite Forall_forall in F. specialize (F v Hv).
  split; [exact F|]. split; [|split].
  - intros H. apply (plain_value_chars v _ F) in H. unfold SEP in H. lia.
  - intros H. apply (plain_value_chars v _ F) in H. lia.
  - intros c Hc. apply (plain_value_chars v _ F) in Hc. split.
    + apply is_space_false_spec. lia.
    + unfold unencodable. lia.
Qed.

End CreateDfFacts.

(** ** The pipeline on a generated frame *)

Lemma mapM_raw {A B : Type} (f : A -> result B) (p : B -> A)
    (l : list A) (m : list B) :
  (forall a b, f a = Ok b -> p b = a) -> mapM f l = Ok m -> map p m = l.
Proof.
  intros Hp. revert m. induction l as [|a r IH]; intros m; simpl.
  - intros E. now injection E as <-.
  - destruct (f a) as [b|e] eqn:Ea; [|discriminate]. cbn [bind].
    destruct (mapM f r) as [br|e]; [|discriminate]. cbn [bind].
    intros E. injection E as <-. simpl. now rewrite (Hp a b Ea), (IH br).
Qed.

Section Pipeline.

Variable upper_cp : N -> pystr.
Variable cfg_record_source : pystr.
Variable cfg_table_name : pystr.
Variable rng : Type.
Variable Random : Z -> rng.
Variable randint : Z -> Z -> rng -> Z * rng.
Variable choice : pystr -> rng -> N * rng.
Variable random_gt : N -> rng -> bool * rng.

Local Abbreviation _norm := (_norm upper_cp).
Local Abbreviation joined := (joined upper_cp).
Local Abbreviation dv2_hash := (dv2_hash upper_cp).
Local Abbreviation bk_hash_of := (bk_hash_of upper_cp).
Local Abbreviation row_hash_of := (row_hash_of upper_cp).
Local Abbreviation with_columns := (with_columns upper_cp cfg_record_source).
Local Abbreviation create_bronze_hash :=
  (create_bronze_hash upper_cp cfg_record_source).
Local Abbreviation main := (main upper_cp cfg_record_source cfg_table_name).
Local Abbreviation _create_df :=
  (_create_df rng Random randint choice random_gt).

(** The first run succeeds when every row can be hashed. *)
Lemma main_fresh_ok (df : list raw_row) (now : Z) :
  (forall r, In r df -> bk_hash_of r <> None /\ row_hash_of r <> None) ->
  exists db1,
    main df now None
    = Ok (db1, [report cfg_table_name (length df);
                report (cfg_table_name ++ [95; 104; 97; 115; 104])
                       (length df)])
    /\ rows_of (tbl_bronze db1) = df.
Proof.
  intros Hall. unfold main. rewrite populate_db_ok.
  cbn [bind fst snd create_db].
  destruct (proj2 (frame_ok_iff upper_cp cfg_record_source now df) Hall)
    as [fr Em].
  match goal with
  | |- context [create_bronze_hash now ?d] =>
      destruct (create_bronze_hash_fresh upper_cp cfg_record_source
                  now d (Table df false) fr eq_refl eq_refl Em)
        as [db1 E1];
      pose proof (create_bronze_hash_adds upper_cp cfg_record_source
                    _ _ _ _ E1) as [Hb _]
  end.
  rewrite E1. cbn [bind fst snd t_rows]. exists db1.
  split; [reflexivity|]. unfold rows_of. now rewrite Hb.
Qed.

Lemma create_df_length (n : nat) : length (_create_df n) = n.
Proof.
  destruct (create_df_columns rng Random randint choice random_gt n)
    as (c2 & c3 & c4 & c5 & c6 & c7 & c8 & g2 & g3 & g4 & g5 & g6 & g7 & g8
        & E & E2 & E3 & E4 & E5 & E6 & E7 & E8).
  rewrite E.
  apply (frame_rows_spec (fun _ => True) n);
    try (subst; apply (replicateM_spec rng (fun _ => True)); intros; exact I).
  now rewrite length_map, length_seq.
Qed.

(** [rng.choice(s)] returns an element of [s]. *)
Hypothesis choice_in :
  forall s g, s <> [] -> In (fst (choice s g)) s.

(** No character becomes one that UTF-8 cannot encode. *)
Hypothesis upper_unenc_only :
  forall c x, unencodable x -> In x (upper_cp c) -> c = x.

Lemma plain_hashable (cols : list value) :
  Forall plain_value cols -> dv2_hash cols <> None.
Proof.
  intros F E. apply dv2_hash_none_iff in E as [c [Hc Hu]].
  unfold joined in Hc.
  apply In_join in Hc as [t [Ht Hin]]; [|unfold unencodable, SEP in *; lia].
  apply in_map_iff in Ht as [v [<- Hv]].
  rewrite Forall_forall in F. specialize (F v Hv).
  apply In_norm in Hin as [H|H].
  - unfold _NULL, unencodable in *. simpl in H. lia.
  - apply (plain_value_chars v c F) in H. unfold unencodable in Hu. lia.
  - unfold unencodable in Hu. lia.
  - intros d. now apply upper_unenc_only.
Qed.


End Pipeline.

(** The counter of the examples draws from the sequence it is given. *)
Lemma ex_choice_in (s : pystr) (g : nat) :
  s <> [] -> In (fst (ex_choice s g)) s.
Proof.
  intros Hs. unfold ex_choice. simpl. apply nth_In.
  apply Nat.mod_upper_bound. now destruct s.
Qed.

(** On the second row of a frame of two rows from the counter. *)
Lemma create_df_plain_witness :
  plain_value
    (col5 (nth 1 (_create_df nat ex_Random ex_randint ex_choice ex_random_gt 2)
             (ex_row VNone)))
  /\ ~ In SEP
       (Py.str
          (col5 (nth 1 (_create_df nat ex_Random ex_randint ex_choice
                          ex_random_gt 2) (ex_row VNone)))).
Proof.
  destruct (X26_create_df_plain nat ex_Random ex_randint ex_choice
              ex_random_gt ex_choice_in 2
              (nth 1 (_create_df nat ex_Random ex_randint ex_choice
                        ex_random_gt 2) (ex_row VNone))
              (col5 (nth 1 (_create_df nat ex_Random ex_randint ex_choice
                              ex_random_gt 2) (ex_row VNone))))
    as [H1 [H2 _]].
  - apply nth_In. vm_compute. lia.
  - unfold columns. right. right. right. right. now left.
  - now split.
Defined.


(** ** Every generated record gets its own hashed row *)

Lemma NoDup_map_finer {A B C : Type} (f : A -> B) (g : A -> C) (l : list A) :
  (forall x y, In x l -> In y l -> g x = g y -> f x = f y) ->
  NoDup (map f l) -> NoDup (map g l).
Proof.
  induction l as [|a l IH]; simpl; intros H Hnd; [constructor|].
  apply NoDup_cons_iff in Hnd as [Ha Hl]. constructor.
  - intros Hin. apply Ha. apply in_map_iff in Hin as [x [Ex Hx]].
    apply in_map_iff. exists x. split; [|exact Hx].
    symmetry. apply H; [now left | now right | now symmetry].
  - apply IH; [|exact Hl]. intros x y Hx Hy. apply H; now right.
Qed.

Lemma cust_id_chars (i : nat) (c : N) :
  In c (cust_id i) -> c = 45 \/ 48 <= c <= 57 \/ 65 <= c <= 90.
Proof.
  unfold cust_id, zfill. rewrite !in_app_iff. intros [H|[H|H]].
  - simpl in H. lia.
  - apply repeat_spec in H. lia.
  - apply int_str_chars in H. lia.
Qed.

Section GeneratedRows.

Variable upper_cp : N -> pystr.
Variable cfg_record_source : pystr.
Variable cfg_table_name : pystr.
Variable rng : Type.
Variable Random : Z -> rng.
Variable randint : Z -> Z -> rng -> Z * rng.
Variable choice : pystr -> rng -> N * rng.
Variable random_gt : N -> rng -> bool * rng.

Local Abbreviation upper := (upper upper_cp).
Local Abbreviation _norm := (_norm upper_cp).
Local Abbreviation joined := (joined upper_cp).
Local Abbreviation dv2_hash := (dv2_hash upper_cp).
Local Abbreviation bk_hash_of := (bk_hash_of upper_cp).
Local Abbreviation with_columns := (with_columns upper_cp cfg_record_source).
Local Abbreviation create_bronze_hash :=
  (create_bronze_hash upper_cp cfg_record_source).
Local Abbreviation main := (main upper_cp cfg_record_source cfg_table_name).
Local Abbreviation _create_df :=
  (_create_df rng Random randint choice random_gt).

(** Hashed rows whose business keys are joined to different strings have
    different keys, or two of the rows have one [bk_hash] although the byte
    strings hashed for them are different. *)
Lemma keys_distinct_or_collision (df : list hashed_row) :
  (forall h, In h df -> bk_hash_of (raw h) = Some (bk_hash h)) ->
  NoDup (map (fun h => joined [col1_bk (raw h); col2_bk (raw h)]) df) ->
  NoDup (map pk_hash df)
  \/ exists h1 h2 b1 b2,
       In h1 df /\ In h2 df
       /\ Utf8.encode (joined [col1_bk (raw h1); col2_bk (raw h1)]) = Some b1
       /\ Utf8.encode (joined [col1_bk (raw h2); col2_bk (raw h2)]) = Some b2
       /\ b1 <> b2
       /\ Sha256.hexdigest b1 = Sha256.hexdigest b2.
Proof.
  induction df as [|h df IH]; intros Hok Hnd; [left; constructor|].
  simpl in Hnd. apply NoDup_cons_iff in Hnd as [Hh Hnd].
  destruct IH as [IH|IH]; [intros x Hx; apply Hok; now right | exact Hnd | |].
  2:{ right. destruct IH as (h1 & h2 & b1 & b2 & I1 & I2 & IH).
      exists h1, h2, b1, b2. split; [now right|]. split; [now right|].
      exact IH. }
  destruct (in_dec pk_eq_dec (pk_hash h) (map pk_hash df)) as [Hin|Hin].
  - right. apply in_map_iff in Hin as [h' [Ek Hh']].
    destruct (dv2_hash_collision_on upper_cp
                [col1_bk (raw h); col2_bk (raw h)]
                [col1_bk (raw h'); col2_bk (raw h')] (bk_hash h))
      as (b1 & b2 & E1 & E2 & Hne & D1 & D2).
    + intros E. apply Hh. rewrite E.
      apply (in_map (fun x => joined [col1_bk (raw x); col2_bk (raw x)])).
      exact Hh'.
    + apply Hok. now left.
    + unfold pk_hash in Ek. injection Ek as Ek _. rewrite <- Ek.
      apply Hok. now right.
    + exists h, h', b1, b2. split; [now left|]. split; [now right|].
      split; [exact E1|]. split; [exact E2|]. split; [exact Hne|].
      now rewrite D1, D2.
  - left. simpl. now constructor.
Qed.

(** Upper-case letters, digits and the hyphen have no other upper case. *)
Hypothesis upper_plain_fix :
  forall c, c = 45 \/ 48 <= c <= 57 \/ 65 <= c <= 90 -> upper_cp c = [c].

Lemma norm_cust_id (i : nat) : _norm (VStr (cust_id i)) = cust_id i.
Proof.
  assert (Hs : forall c, In c (cust_id i) -> Py.is_space c = false).
  { intros c Hc. apply cust_id_chars in Hc. apply is_space_false_spec. lia. }
  assert (Hu : forall s, (forall c, In c s ->
                            c = 45 \/ 48 <= c <= 57 \/ 65 <= c <= 90) ->
                upper s = s).
  { induction s as [|c r IH]; intros H; [reflexivity|].
    change (upper (c :: r)) with (upper_cp c ++ upper r).
    rewrite (upper_plain_fix c) by (apply H; now left).
    rewrite IH; [reflexivity|]. intros d Hd. apply H. now right. }
  rewrite norm_unfold by discriminate. cbn [Py.str]. cbv zeta.
  rewrite (trimmed_strip _ (nospace_trimmed _ Hs)).
  rewrite (Hu _ (cust_id_chars i)). unfold _WS_RE_sub.
  rewrite (ws_sub_nospace_id _ Hs). reflexivity.
Qed.

(** Two rows with different customer numbers have their business keys
    joined to different strings. *)
Lemma bk_joined_inj (r r' : raw_row) (i j : nat) :
  col1_bk r = VStr (cust_id i) -> col1_bk r' = VStr (cust_id j) ->
  joined [col1_bk r; col2_bk r] = joined [col1_bk r'; col2_bk r'] ->
  i = j.
Proof.
  intros E1 E2 E. unfold joined in E. cbn [map Py.join app] in E.
  rewrite E1, E2, !norm_cust_id in E.
  apply app_sep_inj in E as [E _].
  - now apply cust_id_inj.
  - intros H. apply cust_id_chars in H. unfold SEP in H. lia.
  - intros H. apply cust_id_chars in H. unfold SEP in H. lia.
  - right. eauto.
  - right. eauto.
Qed.

Lemma create_df_bk_joined (n : nat) :
  NoDup (map (fun r => joined [col1_bk r; col2_bk r]) (_create_df n)).
Proof.
  destruct (create_df_columns rng Random randint choice random_gt n)
    as (c2 & c3 & c4 & c5 & c6 & c7 & c8 & g2 & g3 & g4 & g5 & g6 & g7 & g8
        & E & E2 & E3 & E4 & E5 & E6 & E7 & E8).
  destruct (frame_rows_spec (fun _ => True) n
              (map (fun i => VStr (cust_id i)) (seq 0 n))
              c2 c3 c4 c5 c6 c7 c8) as [_ [H2 _]];
    try (subst; apply (replicateM_spec rng (fun _ => True)); intros; exact I).
  { now rewrite length_map, length_seq. }
  rewrite <- E in H2.
  assert (Hid : forall r, In r (_create_df n) ->
                  exists i, col1_bk r = VStr (cust_id i)).
  { intros r Hr. apply (in_map col1_bk) in Hr. rewrite H2 in Hr.
    apply in_map_iff in Hr as [i [Ei _]]. now exists i. }
  apply (NoDup_map_finer col1_bk).
  - intros x y Hx Hy Exy.
    destruct (Hid x Hx) as [i Ei]. destruct (Hid y Hy) as [j Ej].
    rewrite Ei, Ej. now rewrite (bk_joined_inj x y i j Ei Ej Exy).
  - rewrite H2. apply NoDup_map_inj; [|apply seq_NoDup].
    intros i j Hij. apply cust_id_inj. congruence.
Qed.


End GeneratedRows.

Lemma latin1_plain_fix (c : N) :
  c = 45 \/ 48 <= c <= 57 \/ 65 <= c <= 90 -> upper_latin1 c = [c].
Proof. intros H. apply latin1_fix; lia. Qed.

